(** * Incremental covariance accumulators of MDP ([mdp/nodes/lcov.py])

    A shallow embedding of [_check_roundoff], [CovarianceMatrix] and
    [DelayCovarianceMatrix], and the properties of their design document
    stated and settled on it.

    Modelling conventions.
    - Array entries are exact rationals ([Qc]): every element type is read
      as a type of real numbers, so casts keep values and only the
      typecode string itself (which selects the round-off ceiling) is
      tracked.  Rounding is outside the model.
    - A Python object is a record; a method is a computation in a state
      and exception monad over that record.  When a method raises, the
      record is returned as it was at the point of the [raise].
    - A 2-D array is its column count together with its list of rows, so
      that an array with no rows still has a width. *)

From Stdlib Require Import QArith Qcanon ZArith Lia.
From stdpp Require Import base numbers list strings gmap.

Local Open Scope Qc_scope.

(** * Exceptions and the state/exception monad *)

Inductive exn : Type :=
| MDPWarning (t : Qc) (type : string)   (* mdp.MDPWarning, with the values put in its message *)
| MDPException (tlen need : Z)          (* mdp.MDPException: block length, required length *)
| TypeError                             (* an operand is None *)
| ValueError                            (* operand shapes do not agree *)
| ZeroDivisionError.                    (* division by an exact zero *)

Inductive result (A : Type) : Type :=
| Ok (a : A)
| Raise (e : exn).
Arguments Ok {A} a.
Arguments Raise {A} e.

Definition result_map {A B} (f : A -> B) (r : result A) : result B :=
  match r with Ok a => Ok (f a) | Raise e => Raise e end.

Definition M (S A : Type) : Type := S -> result A * S.

Definition ret {S A} (a : A) : M S A := fun s => (Ok a, s).
Definition raise {S A} (e : exn) : M S A := fun s => (Raise e, s).
Definition bind {S A B} (m : M S A) (k : A -> M S B) : M S B :=
  fun s => match m s with
           | (Ok a, s') => k a s'
           | (Raise e, s') => (Raise e, s')
           end.
Definition get {S} : M S S := fun s => (Ok s, s).
Definition modify {S} (f : S -> S) : M S unit := fun s => (Ok tt, f s).
Definition lift {S A} (r : result A) : M S A := fun s => (r, s).

Notation "'do' x <- c1 ; c2" := (bind c1 (fun x => c2))
  (at level 60, x name, c1 at next level, right associativity).
Notation "'do_' c1 ; c2" := (bind c1 (fun _ => c2))
  (at level 60, c1 at next level, right associativity).

(** * The numeric backend ([numx]) in exact arithmetic *)

Abbreviation vec := (list Qc).

(** [shape = (length rows, ncols)]. *)
Record matrix : Type := mkMatrix { ncols : nat; rows : list vec }.

Definition nrows (a : matrix) : nat := length (rows a).

(** The batch handed to [update]: its typecode ([x.typecode()]) and entries. *)
Record ndarray : Type := mkNdarray { typecode : string; values : matrix }.

Definition vsum (u : vec) : Qc := foldr Qcplus 0 u.

Definition column (j : nat) (a : matrix) : vec := map (fun r => nth j r 0) (rows a).

(** [numx.zeros(n, type)] and [numx.zeros((n,m), type)]. *)
Definition zeros (n : nat) : vec := replicate n 0.
Definition zeros2 (n m : nat) : matrix := mkMatrix m (replicate n (replicate m 0)).

(** [tr = numx.transpose]. *)
Definition tr (a : matrix) : matrix :=
  mkMatrix (nrows a) (map (fun j => column j a) (seq 0 (ncols a))).

(** [numx.sum(a, 0)]: the sum of the rows, one entry per column. *)
Definition sum0 (a : matrix) : vec :=
  map (fun j => vsum (column j a)) (seq 0 (ncols a)).

(** [numx.outerproduct(u, v)]. *)
Definition outerproduct (u v : vec) : matrix :=
  mkMatrix (length v) (map (fun ui => map (fun vj => ui * vj) v) u).

Definition dot (u v : vec) : Qc := vsum (zip_with Qcmult u v).

(** Elementwise operations between arrays of one shape.  A shape mismatch
    raises; the broadcasting rules of the backend are not modelled. *)
Definition vzip (f : Qc -> Qc -> Qc) (u v : vec) : result vec :=
  if bool_decide (length u = length v) then Ok (zip_with f u v) else Raise ValueError.

Definition mzip (f : Qc -> Qc -> Qc) (a b : matrix) : result matrix :=
  if bool_decide (nrows a = nrows b /\ ncols a = ncols b)
  then Ok (mkMatrix (ncols a) (zip_with (zip_with f) (rows a) (rows b)))
  else Raise ValueError.

(** Division of every entry by a scalar. *)
Definition vdiv (u : vec) (t : Qc) : result vec :=
  if bool_decide (t = 0) then Raise ZeroDivisionError else Ok (map (fun e => e / t) u).

Definition mdiv (a : matrix) (t : Qc) : result matrix :=
  if bool_decide (t = 0) then Raise ZeroDivisionError
  else Ok (mkMatrix (ncols a) (map (map (fun e => e / t)) (rows a))).

(** An attribute that may still be [None] used as an array operand. *)
Definition the {A} (o : option A) : result A :=
  match o with Some a => Ok a | None => Raise TypeError end.

(** Python slicing [l[lo:hi]] (step 1): negative indices count from the
    end, indices are clipped to the length, an empty range gives []. *)
Definition slice_index (n : nat) (i : Z) : nat :=
  Z.to_nat (Z.min (Z.of_nat n) (if (i <? 0)%Z then Z.max 0 (i + Z.of_nat n) else i)).

Definition py_slice {A} (lo hi : option Z) (l : list A) : list A :=
  let n := length l in
  let a := from_option (slice_index n) 0%nat lo in
  let b := from_option (slice_index n) n hi in
  take (b - a) (drop a l).

(** [a[lo:hi, :]]. *)
Definition row_slice (lo hi : option Z) (a : matrix) : matrix :=
  mkMatrix (ncols a) (py_slice lo hi (rows a)).

(** Python's [int(t)]: truncation towards zero. *)
Definition int (t : Qc) : Z := Z.quot (Qnum (this t)) (Zpos (Qden (this t))).

(** Python's truth value of [self._typecode] ([None] and [''] are false). *)
Definition truthy (tc : option string) : bool :=
  match tc with
  | Some s => negb (String.eqb s "")
  | None => false
  end.

(** * Helpers of [mdp.utils] *)

(** Modelled from the spec: [utils.mult] is not among the sources; it is the
    matrix product of the backend ("transpose(batch) · batch",
    "A · covariance · transpose(A)"), which fails on operands whose inner
    dimensions differ. *)
Definition mult (a b : matrix) : result matrix :=
  if bool_decide (ncols a = nrows b)
  then Ok (mkMatrix (ncols b)
             (map (fun ra => map (fun j => dot ra (column j b)) (seq 0 (ncols b))) (rows a)))
  else Raise ValueError.

(** Modelled from the spec: [utils.refcast] is not among the sources; it
    "casts the batch to the accumulator's element type", which in exact
    arithmetic keeps every entry. *)
Definition refcast (x : ndarray) (type : option string) : matrix := values x.

(** Modelled from the spec: [utils.scast] is not among the sources;
    "count_typed = cast(count, element_type)", exact on integers. *)
Definition scast (n : Z) (type : option string) : Qc := Qc_of_Z n.

(** * The precision guard *)

(** [_limits = { 'd' : 1e13, 'f' : 1e5}] *)
Definition _limits : gmap string Qc :=
  {[ "d" := Qc_of_Z (10 ^ 13); "f" := Qc_of_Z (10 ^ 5) ]}.

Definition _check_roundoff {S} (t : Qc) (type : option string) : M S unit :=
  match type with
  | Some ty =>
      match _limits !! ty with
      | Some limit =>
          if bool_decide (limit <= Qc_of_Z (int t))
          then raise (MDPWarning t ty)
          else ret tt
      | None => ret tt
      end
  | None => ret tt
  end.

Definition result_bind {A B} (r : result A) (k : A -> result B) : result B :=
  match r with Ok a => k a | Raise e => Raise e end.

(** An in-place array operation ([+=], [-=], [/=]) on the buffer held in an
    attribute.  Local names bound to the attribute alias the same buffer, so
    the new contents are both stored and handed back.  A failing operation
    leaves the buffer as it was. *)
Definition inplace {S A} (getf : S -> option A) (setf : option A -> S -> S)
    (op : A -> result A) : M S A :=
  fun self =>
    match result_bind (the (getf self)) op with
    | Ok a => (Ok a, setf (Some a) self)
    | Raise e => (Raise e, self)
    end.

(** * class CovarianceMatrix *)

Module CovarianceMatrix.

Record t : Type := mk {
  _typecode : option string;
  _cov_mtx : option matrix;
  _avg : option vec;
  _tlen : Z;
  _input_dim : option nat       (* unset until [_init_internals] *)
}.

Definition set_cov_mtx (c : option matrix) (self : t) : t :=
  mk (_typecode self) c (_avg self) (_tlen self) (_input_dim self).
Definition set_avg (a : option vec) (self : t) : t :=
  mk (_typecode self) (_cov_mtx self) a (_tlen self) (_input_dim self).
Definition set_tlen (n : Z) (self : t) : t :=
  mk (_typecode self) (_cov_mtx self) (_avg self) n (_input_dim self).

Definition __init__ (typecode : option string) : t :=
  mk typecode None None 0 None.

Definition _init_internals (x : ndarray) : M t unit :=
  fun self =>
    let typecode' :=
      if truthy (_typecode self) then _typecode self else Some (typecode x) in
    let dim := ncols (values x) in
    (Ok tt, mk typecode' (Some (zeros2 dim dim)) (Some (zeros dim)) (_tlen self) (Some dim)).

Definition update (x : ndarray) : M t unit :=
  do self <- get;
  do_ (match _cov_mtx self with None => _init_internals x | Some _ => ret tt end);
  do self <- get;
  let x := refcast x (_typecode self) in
  do p <- lift (mult (tr x) x);
  do_ inplace _cov_mtx set_cov_mtx (fun c => mzip Qcplus c p);
  do_ inplace _avg set_avg (fun a => vzip Qcplus a (sum0 x));
  modify (fun self => set_tlen (_tlen self + Z.of_nat (nrows x))%Z self).

Definition fix_ : M t (matrix * vec * Qc) :=
  do self <- get;
  let type := _typecode self in
  let tlen := scast (_tlen self) type in
  do_ _check_roundoff tlen type;
  do avg_mtx <- lift (result_bind (the (_avg self)) (fun avg => Ok (outerproduct avg avg)));
  do avg_mtx <- lift (mdiv avg_mtx (tlen * (tlen - scast 1 type)));
  do_ inplace _cov_mtx set_cov_mtx (fun c => mdiv c (tlen - scast 1 type));
  do cov_mtx <- inplace _cov_mtx set_cov_mtx (fun c => mzip Qcminus c avg_mtx);
  do avg <- inplace _avg set_avg (fun a => vdiv a tlen);
  do_ modify (fun self => mk (_typecode self) None None 0 (_input_dim self));
  ret (cov_mtx, avg, tlen).

(** A caller's accumulation phase: the batches in order, then [fix]. *)
Fixpoint update_all (bs : list ndarray) : M t unit :=
  match bs with
  | [] => ret tt
  | x :: bs' => do_ update x; update_all bs'
  end.

Definition cycle (bs : list ndarray) : M t (matrix * vec * Qc) :=
  do_ update_all bs; fix_.

End CovarianceMatrix.

(** * class DelayCovarianceMatrix *)

Module DelayCovarianceMatrix.

Record t : Type := mk {
  _dt : Z;
  _typecode : option string;
  _cov_mtx : option matrix;
  _avg : option vec;
  _avg_dt : option vec;
  _tlen : Z;
  _input_dim : option nat
}.

Definition set_cov_mtx (c : option matrix) (self : t) : t :=
  mk (_dt self) (_typecode self) c (_avg self) (_avg_dt self) (_tlen self) (_input_dim self).
Definition set_avg (a : option vec) (self : t) : t :=
  mk (_dt self) (_typecode self) (_cov_mtx self) a (_avg_dt self) (_tlen self) (_input_dim self).
Definition set_avg_dt (a : option vec) (self : t) : t :=
  mk (_dt self) (_typecode self) (_cov_mtx self) (_avg self) a (_tlen self) (_input_dim self).
Definition set_tlen (n : Z) (self : t) : t :=
  mk (_dt self) (_typecode self) (_cov_mtx self) (_avg self) (_avg_dt self) n (_input_dim self).

(** [dt] is given as a Python integer, on which [int(dt)] is the identity. *)
Definition __init__ (dt : Z) (typecode : option string) : t :=
  mk dt typecode None None None 0 None.

Definition _init_internals (x : ndarray) : M t unit :=
  fun self =>
    let typecode' :=
      if truthy (_typecode self) then _typecode self else Some (typecode x) in
    let dim := ncols (values x) in
    (Ok tt, mk (_dt self) typecode' (Some (zeros2 dim dim)) (Some (zeros dim))
               (Some (zeros dim)) (_tlen self) (Some dim)).

Definition update (x : ndarray) : M t unit :=
  do self <- get;
  do_ (match _cov_mtx self with None => _init_internals x | Some _ => ret tt end);
  do self <- get;
  let x := refcast x (_typecode self) in
  let dt := _dt self in
  let tlen := Z.of_nat (nrows x) in
  do_ (if (tlen <? dt + 1)%Z then raise (MDPException tlen (dt + 1)) else ret tt);
  do p <- lift (mult (tr (row_slice None (Some (tlen - dt)%Z) x))
                     (row_slice (Some dt) (Some tlen) x));
  do_ inplace _cov_mtx set_cov_mtx (fun c => mzip Qcplus c p);
  let totalsum := sum0 x in
  do d <- lift (vzip Qcminus totalsum (sum0 (row_slice (Some (tlen - dt)%Z) None x)));
  do_ inplace _avg set_avg (fun a => vzip Qcplus a d);
  do d <- lift (vzip Qcminus totalsum (sum0 (row_slice None (Some dt) x)));
  do_ inplace _avg_dt set_avg_dt (fun a => vzip Qcplus a d);
  modify (fun self => set_tlen (_tlen self + (tlen - dt))%Z self).

Definition fix_ (A : option matrix) : M t (matrix * vec * vec * Qc) :=
  do self <- get;
  let type := _typecode self in
  let tlen := scast (_tlen self) type in
  do_ _check_roundoff tlen type;
  do avg_mtx <- lift (result_bind (the (_avg self)) (fun avg =>
                      result_bind (the (_avg_dt self)) (fun avg_dt =>
                      Ok (outerproduct avg avg_dt))));
  do avg_mtx <- lift (mdiv avg_mtx tlen);
  do_ inplace _cov_mtx set_cov_mtx (fun c => mzip Qcminus c avg_mtx);
  do cov_mtx <- inplace _cov_mtx set_cov_mtx (fun c => mdiv c (tlen - scast 1 type));
  do cov_mtx <- lift (match A with
                      | Some A => result_bind (mult cov_mtx (tr A)) (fun m => mult A m)
                      | None => Ok cov_mtx
                      end);
  do avg <- inplace _avg set_avg (fun a => vdiv a tlen);
  do avg_dt <- inplace _avg_dt set_avg_dt (fun a => vdiv a tlen);
  do_ modify (fun self => mk (_dt self) (_typecode self) None None None 0 (_input_dim self));
  ret (cov_mtx, avg, avg_dt, tlen).

Fixpoint update_all (bs : list ndarray) : M t unit :=
  match bs with
  | [] => ret tt
  | x :: bs' => do_ update x; update_all bs'
  end.

Definition cycle (A : option matrix) (bs : list ndarray) : M t (matrix * vec * vec * Qc) :=
  do_ update_all bs; fix_ A.

End DelayCovarianceMatrix.

Module CM := CovarianceMatrix.
Module DCM := DelayCovarianceMatrix.

(** * Vocabulary of the statements

    Tables of an entry function (the form in which the arrays built by the
    accumulators are compared), the guard as a proposition, the states that
    occur between method calls, and the concrete inputs of the examples. *)

(** The vector [g 0, ..., g (m-1)] and the [n x m] matrix of entries [f i j]. *)
Definition vtab (m : nat) (g : nat -> Qc) : vec := map g (seq 0 m).

Definition mtab (n m : nat) (f : nat -> nat -> Qc) : matrix :=
  mkMatrix m (map (fun i => vtab m (f i)) (seq 0 n)).

(** Entry [a[i][j]], zero outside the array. *)
Definition entry (a : matrix) (i j : nat) : Qc := nth j (nth i (rows a) []) 0.

(** A matrix whose rows all have the declared width. *)
Definition rectangular (a : matrix) : Prop :=
  Forall (fun r => length r = ncols a) (rows a).

(** The guard as a decision on its two arguments. *)
Definition ceiling_reached (t : Qc) (type : option string) : Prop :=
  (type = Some "d" /\ (10 ^ 13 <= int t)%Z) \/ (type = Some "f" /\ (10 ^ 5 <= int t)%Z).

#[global] Instance ceiling_reached_dec t type : Decision (ceiling_reached t type).
Proof. unfold ceiling_reached. apply _. Defined.

(** Gram table of a batch: entry [(i,j)] sums [x[k][i] * x[k][j]] over the rows. *)
Definition gram (x : matrix) : nat -> nat -> Qc :=
  fun i j => dot (column i x) (column j x).

(** Column sums of a batch. *)
Definition colsum (x : matrix) : nat -> Qc := fun j => vsum (column j x).

Section PlainStates.
Import CovarianceMatrix.

(** The state in which [update] leaves an accumulator whose buffers are
    allocated. *)
Definition plain_step (x : ndarray) (C : matrix) (a : vec) (s : t) : result unit * t :=
  match result_bind (mult (tr (values x)) (values x)) (fun p => mzip Qcplus C p) with
  | Raise e => (Raise e, s)
  | Ok C' =>
      match vzip Qcplus a (sum0 (values x)) with
      | Raise e => (Raise e, set_cov_mtx (Some C') s)
      | Ok a' =>
          (Ok tt, mk (_typecode s) (Some C') (Some a')
                     (_tlen s + Z.of_nat (nrows (values x))) (_input_dim s))
      end
  end.

(** Buffers allocated and of one dimension [D]. *)
Definition shaped (D : nat) (s : t) : Prop :=
  exists C a, _cov_mtx s = Some C /\ _avg s = Some a
              /\ nrows C = D /\ ncols C = D /\ length a = D.

(** [C += tr(x)·x] on the rows. *)
Definition sum_rows (C : matrix) (x : matrix) : matrix :=
  mkMatrix (ncols C)
    (zip_with (zip_with Qcplus) (rows C) (rows (mtab (ncols x) (ncols x) (gram x)))).

(** The state after the clean-up at the end of [fix]. *)
Definition cleared (s : t) : t := mk (_typecode s) None None 0 (_input_dim s).

(** What [fix] returns from buffers [C], [a] and typed count [n]. *)
Definition plain_cov (C : matrix) (a : vec) (n : Qc) : matrix :=
  mkMatrix (ncols C)
    (zip_with (zip_with Qcminus)
       (map (map (fun e => e / (n - 1))) (rows C))
       (map (map (fun e => e / (n * (n - 1)))) (rows (outerproduct a a)))).

End PlainStates.

Section DelayStates.
Import DelayCovarianceMatrix.

(** The state after the clean-up at the end of [fix]. *)
Definition delay_cleared (s : t) : t :=
  mk (_dt s) (_typecode s) None None None 0 (_input_dim s).

End DelayStates.

#[global] Instance matrix_eq_dec : EqDecision matrix.
Proof. solve_decision. Defined.

(** Integer literals as array entries. *)
Definition q (z : Z) : Qc := Qc_of_Z z.

(** The batch [[1,2],[3,4],[5,6]] with typecode [tcx]. *)
Definition batch_123456 (tcx : string) : ndarray :=
  mkNdarray tcx (mkMatrix 2 [[q 1; q 2]; [q 3; q 4]; [q 5; q 6]]).

(** Number of rows in a list of batches. *)
Definition total_rows (bs : list ndarray) : Z :=
  foldr (fun x n => (Z.of_nat (nrows (values x)) + n)%Z) 0%Z bs.

(** The typecode an accumulator settles on when its first batch is [x]. *)
Definition settled_typecode (typecode0 : option string) (x : ndarray) : option string :=
  if truthy typecode0 then typecode0 else Some (typecode x).

(** An accumulator between method calls: without buffers, or with buffers
    of one dimension. *)
Definition plain_ready (s : CM.t) : Prop :=
  CM._cov_mtx s = None \/ exists D, shaped D s.

(** A state that holds no data: no buffers and a zero count.  Both the
    constructor and a successful [fix] produce such a state. *)
Definition plain_empty (s : CM.t) : Prop :=
  CM._cov_mtx s = None /\ CM._avg s = None /\ CM._tlen s = 0%Z.

Definition delay_empty (s : DCM.t) : Prop :=
  DCM._cov_mtx s = None /\ DCM._avg s = None /\ DCM._avg_dt s = None /\ DCM._tlen s = 0%Z.

#[global] Instance exn_eq_dec : EqDecision exn.
Proof. solve_decision. Defined.
#[global] Instance result_eq_dec {A} `{EqDecision A} : EqDecision (result A).
Proof. solve_decision. Defined.
#[global] Instance ndarray_eq_dec : EqDecision ndarray.
Proof. solve_decision. Defined.
#[global] Instance plain_eq_dec : EqDecision CM.t.
Proof. solve_decision. Defined.
#[global] Instance delay_eq_dec : EqDecision DCM.t.
Proof. solve_decision. Defined.

(** Accumulators of typecode ['f'] whose count has reached [1e5]. *)
Definition saturated_plain : CM.t :=
  CM.mk (Some "f") (Some (mkMatrix 1 [[q 7]])) (Some [q 5]) (10 ^ 5) (Some 1%nat).

Definition saturated_delay : DCM.t :=
  DCM.mk 1 (Some "f") (Some (mkMatrix 1 [[q 7]])) (Some [q 5]) (Some [q 6]) (10 ^ 5)
         (Some 1%nat).

(** A 2-row and a 5-row batch of width 2. *)
Definition two_rows : ndarray := mkNdarray "d" (mkMatrix 2 [[q 1; q 2]; [q 3; q 4]]).

Definition five_rows : ndarray :=
  mkNdarray "d" (mkMatrix 2 [[q 1; q 2]; [q 3; q 4]; [q 5; q 6]; [q 7; q 8]; [q 9; q 10]]).

Section DelayResults.
Import DelayCovarianceMatrix.

(** The covariance before the optional transform. *)
Definition delay_cov (C : matrix) (a b : vec) (n : Qc) : matrix :=
  mkMatrix (ncols C)
    (map (map (fun e => e / (n - 1)))
       (zip_with (zip_with Qcminus) (rows C)
          (map (map (fun e => e / n)) (rows (outerproduct a b))))).

(** [mult(A, mult(cov, tr(A)))] when a transform is given. *)
Definition transformed (A : option matrix) (cov : matrix) : result matrix :=
  match A with
  | Some A => result_bind (mult cov (tr A)) (fun m => mult A m)
  | None => Ok cov
  end.

End DelayResults.

(** The delayed accumulator with [dt = 1] after the batch [[1,2],[3,4],[5,6]]. *)
Definition lagged_pairs : DCM.t :=
  DCM.mk 1 (Some "d")
    (Some (mkMatrix 2 [[q 18; q 22]; [q 26; q 32]])) (Some [q 4; q 6]) (Some [q 8; q 10])
    2 (Some 2%nat).

(** What [fix] returns besides the covariance. *)
Definition means_and_count (r : matrix * vec * vec * Qc) : vec * vec * Qc :=
  let '(_, mean_lead, mean_lag, n) := r in (mean_lead, mean_lag, n).

(** The delayed accumulator with [dt = 0] that mirrors a plain one. *)
Definition mirror (s : CM.t) : DCM.t :=
  DCM.mk 0 (CM._typecode s) (CM._cov_mtx s) (CM._avg s) (CM._avg s) (CM._tlen s)
         (CM._input_dim s).

(** The plain result read as a delayed one. *)
Definition twice_mean (r : matrix * vec * Qc) : matrix * vec * vec * Qc :=
  let '(cov, avg, n) := r in (cov, avg, avg, n).

(** ** Whole runs

    The rows that a list of batches delivers, and, for a lag [dt], the rows
    that [update] pairs: row [t] of [x[:tlen-dt]] with row [t] of
    [x[dt:tlen]], batch by batch. *)

Definition all_rows (bs : list ndarray) : list vec :=
  foldr (fun x acc => rows (values x) ++ acc) [] bs.

Definition lead_rows (dt : Z) (x : matrix) : list vec :=
  rows (row_slice None (Some (Z.of_nat (nrows x) - dt)%Z) x).

Definition lag_rows (dt : Z) (x : matrix) : list vec :=
  rows (row_slice (Some dt) (Some (Z.of_nat (nrows x))) x).

Definition all_lead (dt : Z) (bs : list ndarray) : list vec :=
  foldr (fun x acc => lead_rows dt (values x) ++ acc) [] bs.

Definition all_lag (dt : Z) (bs : list ndarray) : list vec :=
  foldr (fun x acc => lag_rows dt (values x) ++ acc) [] bs.

(** Sum over [t] of [L[t][i] * G[t][j]]. *)
Definition cross (L G : list vec) (i j : nat) : Qc :=
  dot (map (fun r => nth i r 0) L) (map (fun r => nth j r 0) G).

(** Sum over [t] of [L[t][j]]. *)
Definition rowsum (L : list vec) (j : nat) : Qc :=
  vsum (map (fun r => nth j r 0) L).

(** Buffers of the delayed accumulator allocated and of one dimension. *)
Definition delay_shaped (D : nat) (s : DCM.t) : Prop :=
  exists C a b, DCM._cov_mtx s = Some C /\ DCM._avg s = Some a /\ DCM._avg_dt s = Some b
                /\ nrows C = D /\ ncols C = D /\ length a = D /\ length b = D.

(** Number of lagged pairs that the batches deliver: [tlen - dt] each. *)
Definition pair_count (dt : Z) (bs : list ndarray) : Z :=
  foldr (fun x acc => (Z.of_nat (nrows (values x)) - dt + acc)%Z) 0%Z bs.

(** A batch with no rows, of width [D]. *)
Definition no_rows (tc : string) (D : nat) : ndarray := mkNdarray tc (mkMatrix D []).

(** * Tabulated arrays

    The arrays that the accumulators build are tabulations of an entry
    function; the lemmas below bring the backend operations to that form. *)

Section ListLemmas.
Context {A B C : Type}.

Lemma replicate_as_map (x : A) n k : replicate n x = map (fun _ => x) (seq k n).
Proof. revert k; induction n as [|n IH]; intros k; simpl; [done|]. by rewrite <- IH. Qed.

Lemma zip_with_map_same (f : A -> B -> C) {I} (g : I -> A) (h : I -> B) (l : list I) :
  zip_with f (map g l) (map h l) = map (fun i => f (g i) (h i)) l.
Proof. induction l as [|i l IH]; simpl; [done|]. by rewrite IH. Qed.

Lemma zip_with_assoc_gen (f : A -> A -> A) (l1 l2 l3 : list A) :
  (forall x y z, f (f x y) z = f x (f y z)) ->
  zip_with f (zip_with f l1 l2) l3 = zip_with f l1 (zip_with f l2 l3).
Proof.
  intros Hf. revert l2 l3; induction l1 as [|x l1 IH]; intros [|y l2] [|z l3]; simpl; try done.
  by rewrite Hf, IH.
Qed.
End ListLemmas.

Lemma vtab_length m g : length (vtab m g) = m.
Proof. unfold vtab. by rewrite length_map, length_seq. Qed.

Lemma vtab_ext m g h : (forall j, g j = h j) -> vtab m g = vtab m h.
Proof. intros E. unfold vtab. apply map_ext. auto. Qed.

Lemma mtab_ext n m f g : (forall i j, f i j = g i j) -> mtab n m f = mtab n m g.
Proof.
  intros E. unfold mtab. f_equal. apply map_ext. intros i. apply vtab_ext. auto.
Qed.

Lemma nrows_mtab n m f : nrows (mtab n m f) = n.
Proof. unfold nrows, mtab; simpl. by rewrite length_map, length_seq. Qed.

Lemma zeros_tab n : zeros n = vtab n (fun _ => 0).
Proof. apply replicate_as_map. Qed.

Lemma zeros2_tab n m : zeros2 n m = mtab n m (fun _ _ => 0).
Proof.
  unfold zeros2, mtab. f_equal.
  rewrite (replicate_as_map _ n 0). apply map_ext. intros _. apply zeros_tab.
Qed.

Lemma vzip_tab f m g h :
  vzip f (vtab m g) (vtab m h) = Ok (vtab m (fun j => f (g j) (h j))).
Proof.
  unfold vzip. rewrite !vtab_length, bool_decide_eq_true_2 by done.
  unfold vtab. by rewrite zip_with_map_same.
Qed.

Lemma mzip_tab f n m g h :
  mzip f (mtab n m g) (mtab n m h) = Ok (mtab n m (fun i j => f (g i j) (h i j))).
Proof.
  unfold mzip. rewrite !nrows_mtab. simpl.
  rewrite bool_decide_eq_true_2 by done.
  unfold mtab. simpl. rewrite zip_with_map_same. do 2 f_equal.
  apply map_ext. intros i. unfold vtab. by rewrite zip_with_map_same.
Qed.

Lemma vdiv_tab m g t : t <> 0 -> vdiv (vtab m g) t = Ok (vtab m (fun j => g j / t)).
Proof.
  intros Ht. unfold vdiv. rewrite bool_decide_eq_false_2 by done.
  unfold vtab. by rewrite map_map.
Qed.

Lemma mdiv_tab n m f t : t <> 0 -> mdiv (mtab n m f) t = Ok (mtab n m (fun i j => f i j / t)).
Proof.
  intros Ht. unfold mdiv. rewrite bool_decide_eq_false_2 by done.
  unfold mtab. simpl. rewrite map_map. do 2 f_equal.
  apply map_ext. intros i. unfold vtab. by rewrite map_map.
Qed.

Lemma outerproduct_tab n m g h :
  outerproduct (vtab n g) (vtab m h) = mtab n m (fun i j => g i * h j).
Proof.
  unfold outerproduct, mtab. rewrite vtab_length. f_equal.
  unfold vtab at 2. rewrite map_map. apply map_ext. intros i.
  unfold vtab. by rewrite map_map.
Qed.

Lemma sum0_tab a : sum0 a = vtab (ncols a) (fun j => vsum (column j a)).
Proof. done. Qed.

(** [tr(x)·y] is the table of the dot products of the columns. *)
Lemma mult_tr x y :
  nrows x = nrows y ->
  mult (tr x) y = Ok (mtab (ncols x) (ncols y) (fun i j => dot (column i x) (column j y))).
Proof.
  intros E. unfold mult. simpl. rewrite bool_decide_eq_true_2 by done.
  unfold mtab. by rewrite map_map.
Qed.

Lemma column_app j n r1 r2 :
  column j (mkMatrix n (r1 ++ r2)) = column j (mkMatrix n r1) ++ column j (mkMatrix n r2).
Proof. unfold column; simpl. apply map_app. Qed.

Lemma column_length j a : length (column j a) = nrows a.
Proof. unfold column. apply length_map. Qed.

Lemma vsum_app u v : vsum (u ++ v) = vsum u + vsum v.
Proof.
  unfold vsum. induction u as [|x u IH]; simpl.
  - by rewrite Qcplus_0_l.
  - rewrite IH. ring.
Qed.

Lemma dot_app u1 u2 v1 v2 :
  length u1 = length v1 -> dot (u1 ++ u2) (v1 ++ v2) = dot u1 v1 + dot u2 v2.
Proof.
  intros E. unfold dot. rewrite zip_with_app by done. apply vsum_app.
Qed.

(** A rectangular matrix is the table of its entries. *)
Lemma rectangular_tab a : rectangular a -> a = mtab (nrows a) (ncols a) (entry a).
Proof.
  destruct a as [m rs]. unfold rectangular, nrows, mtab, entry; simpl.
  intros H. f_equal.
  apply (nth_ext _ _ [] []).
  - by rewrite length_map, length_seq.
  - intros i Hi.
    rewrite (nth_indep (map _ _) [] (vtab m (fun j => nth j (nth 0%nat rs []) 0)))
      by (rewrite length_map, length_seq; exact Hi).
    rewrite (map_nth (fun i => vtab m (fun j => nth j (nth i rs []) 0)) (seq 0 (length rs)) 0%nat i).
    rewrite seq_nth by done. simpl.
    assert (Hr : length (nth i rs []) = m).
    { apply (proj1 (Forall_nth _ [] rs) H i Hi). }
    apply (nth_ext _ _ 0 0).
    + by rewrite vtab_length.
    + intros j Hj. unfold vtab.
      rewrite (nth_indep (map _ _) 0 (nth 0%nat (nth i rs []) 0))
        by (rewrite length_map, length_seq; lia).
      rewrite (map_nth (fun j => nth j (nth i rs []) 0) (seq 0 m) 0%nat j).
      rewrite seq_nth by lia. done.
Qed.

(** * The precision guard *)

Lemma limits_lookup ty :
  _limits !! ty =
    if decide (ty = "d") then Some (Qc_of_Z (10 ^ 13))
    else if decide (ty = "f") then Some (Qc_of_Z (10 ^ 5)) else None.
Proof.
  unfold _limits. rewrite lookup_insert.
  destruct (decide ("d" = ty)) as [<-|Hd].
  - rewrite decide_True by done. done.
  - rewrite decide_False by congruence.
    rewrite lookup_singleton.
    destruct (decide ("f" = ty)) as [<-|Hf].
    + rewrite decide_True by done. done.
    + rewrite decide_False by congruence. done.
Qed.

Lemma check_roundoff_raises {S} (s : S) t type :
  ceiling_reached t type ->
  exists ty, type = Some ty /\ _check_roundoff t type s = (Raise (MDPWarning t ty), s).
Proof.
  intros [[-> H]|[-> H]]; unfold _check_roundoff; rewrite limits_lookup; simpl.
  - exists "d". split; [done|].
    rewrite bool_decide_eq_true_2; [done|]. by apply (proj1 (Z2Qc_inj_le _ _)).
  - exists "f". split; [done|].
    rewrite bool_decide_eq_true_2; [done|]. by apply (proj1 (Z2Qc_inj_le _ _)).
Qed.

Lemma check_roundoff_passes {S} (s : S) t type :
  ~ ceiling_reached t type -> _check_roundoff t type s = (Ok tt, s).
Proof.
  intros H. unfold _check_roundoff. destruct type as [ty|]; [|done].
  rewrite limits_lookup.
  destruct (decide (ty = "d")) as [->|Hd].
  - rewrite bool_decide_eq_false_2; [done|].
    intros Hle. apply H. left. split; [done|]. by apply (proj2 (Z2Qc_inj_le _ _)).
  - destruct (decide (ty = "f")) as [->|Hf]; [|done].
    rewrite bool_decide_eq_false_2; [done|].
    intros Hle. apply H. right. split; [done|]. by apply (proj2 (Z2Qc_inj_le _ _)).
Qed.

(** C3: the guard raises exactly when the type is ['d'] and
    [int(t) >= 1e13], or the type is ['f'] and [int(t) >= 1e5]; what it
    raises is the warning built from [t] and the type; in every other case
    (any other type included) it returns normally; and the state it runs in
    is the state it leaves. *)
Theorem check_roundoff_iff {S} (s : S) (t : Qc) (type : option string) :
  ((exists e, fst (_check_roundoff t type s) = Raise e) <-> ceiling_reached t type)
  /\ (forall e, fst (_check_roundoff t type s) = Raise e ->
                exists ty, type = Some ty /\ e = MDPWarning t ty)
  /\ (~ ceiling_reached t type -> fst (_check_roundoff t type s) = Ok tt)
  /\ (type <> Some "d" -> type <> Some "f" -> fst (_check_roundoff t type s) = Ok tt)
  /\ snd (_check_roundoff t type s) = s.
Proof.
  destruct (decide (ceiling_reached t type)) as [Hc|Hc].
  - destruct (check_roundoff_raises s t type Hc) as (ty & -> & E).
    rewrite E; simpl. repeat split; try done.
    + eauto.
    + intros e [= <-]. eauto.
    + intros Hd Hf. destruct Hc as [[? _]|[? _]]; congruence.
  - rewrite (check_roundoff_passes s t type Hc); simpl. repeat split; try done.
    + intros [e ?]; done.
Qed.

Lemma check_roundoff_iff_witness :
  fst (_check_roundoff (Qc_of_Z (10 ^ 5 - 1)) (Some "f") tt) = Ok tt
  /\ fst (_check_roundoff (Qc_of_Z (10 ^ 13)) (Some "l") tt) = Ok tt.
Proof.
  split.
  - destruct (check_roundoff_iff tt (Qc_of_Z (10 ^ 5 - 1)) (Some "f")) as (_ & _ & H & _).
    apply H. intros [[? _]|[_ ?]]; [done|]. vm_compute in *. done.
  - destruct (check_roundoff_iff tt (Qc_of_Z (10 ^ 13)) (Some "l")) as (_ & _ & _ & H & _).
    apply H; done.
Defined.

(** * Stepping through the monad *)

Ltac monad_unfold :=
  unfold bind, get, ret, lift, modify, raise, inplace, result_bind, the in *; simpl in *.

Lemma int_of_Z (z : Z) : int (Qc_of_Z z) = z.
Proof.
  unfold int, Qc_of_Z. simpl. apply Z.quot_1_r.
Qed.

(** * Facts about [CovarianceMatrix] *)

Section PlainFacts.
Import CovarianceMatrix.

Lemma update_Some x s C a :
  _cov_mtx s = Some C -> _avg s = Some a -> update x s = plain_step x C a s.
Proof.
  intros HC Ha. unfold update, plain_step, refcast. monad_unfold. rewrite HC.
  rewrite mult_tr by done. simpl. rewrite HC.
  destruct (mzip Qcplus C _) as [C'|e]; simpl; [|done].
  rewrite Ha. destruct (vzip Qcplus a _) as [a'|e]; simpl; done.
Qed.

Lemma update_None x s :
  _cov_mtx s = None -> update x s = update x (snd (_init_internals x s)).
Proof.
  intros HC. unfold update at 1. monad_unfold. rewrite HC. simpl.
  symmetry. erewrite update_Some by done. unfold plain_step, refcast. simpl.
  rewrite mult_tr by done. simpl.
  destruct (mzip Qcplus _ _) as [C'|e]; simpl; [|done].
  destruct (vzip Qcplus _ _) as [a'|e]; simpl; done.
Qed.

Lemma plain_step_ok x C a s :
  nrows C = ncols (values x) -> ncols C = ncols (values x) ->
  length a = ncols (values x) ->
  plain_step x C a s =
    (Ok tt, mk (_typecode s) (Some (sum_rows C (values x)))
               (Some (zip_with Qcplus a (sum0 (values x))))
               (_tlen s + Z.of_nat (nrows (values x))) (_input_dim s)).
Proof.
  intros H1 H2 H3. unfold plain_step. rewrite mult_tr by done. simpl.
  unfold mzip. rewrite nrows_mtab. simpl.
  rewrite bool_decide_eq_true_2 by done.
  unfold vzip. rewrite sum0_tab, vtab_length, bool_decide_eq_true_2 by done.
  done.
Qed.

Lemma plain_step_mismatch x C a s :
  ~ (nrows C = ncols (values x) /\ ncols C = ncols (values x)) ->
  plain_step x C a s = (Raise ValueError, s).
Proof.
  intros H. unfold plain_step. rewrite mult_tr by done. simpl.
  unfold mzip. rewrite nrows_mtab. simpl.
  rewrite bool_decide_eq_false_2 by done. done.
Qed.

Lemma init_internals_shaped x s :
  shaped (ncols (values x)) (snd (_init_internals x s)).
Proof.
  unfold shaped, _init_internals; simpl. eexists _, _. repeat split.
  - unfold nrows, zeros2; simpl. apply length_replicate.
  - apply length_replicate.
Qed.

Lemma sum_rows_shape C x :
  nrows C = ncols x -> nrows (sum_rows C x) = ncols x /\ ncols (sum_rows C x) = ncols C.
Proof.
  intros H. unfold sum_rows, nrows in *; simpl. split; [|done].
  rewrite length_zip_with, length_map, length_seq. lia.
Qed.

(** [update] on an accumulator whose buffers have the width of the batch. *)
Lemma update_shaped x s :
  shaped (ncols (values x)) s ->
  exists s', update x s = (Ok tt, s') /\ shaped (ncols (values x)) s'
             /\ _typecode s' = _typecode s
             /\ _tlen s' = (_tlen s + Z.of_nat (nrows (values x)))%Z
             /\ _input_dim s' = _input_dim s.
Proof.
  intros (C & a & HC & Ha & H1 & H2 & H3).
  rewrite (update_Some x s C a HC Ha), plain_step_ok by done.
  eexists. split; [done|]. simpl. repeat split.
  eexists _, _. simpl. repeat split.
  - by apply sum_rows_shape.
  - unfold sum_rows; simpl. done.
  - rewrite length_zip_with, sum0_tab, vtab_length. lia.
Qed.

(** The count after a successful [update], whatever the state before. *)
Lemma update_Ok_tlen x s s' :
  update x s = (Ok tt, s') ->
  _tlen s' = (_tlen s + Z.of_nat (nrows (values x)))%Z /\ is_Some (_cov_mtx s').
Proof.
  assert (Hsome : forall s0 C a, _cov_mtx s0 = Some C -> _avg s0 = Some a ->
            update x s0 = (Ok tt, s') ->
            _tlen s' = (_tlen s0 + Z.of_nat (nrows (values x)))%Z /\ is_Some (_cov_mtx s')).
  { intros s0 C a HC Ha. rewrite (update_Some x s0 C a HC Ha). unfold plain_step.
    destruct (result_bind _ _) as [C'|e]; [|done].
    destruct (vzip _ _ _) as [a'|e]; [|done].
    intros [= <-]. simpl. eauto. }
  destruct (_cov_mtx s) as [C|] eqn:HC.
  - destruct (_avg s) as [a|] eqn:Ha; [by eapply Hsome|].
    unfold update. monad_unfold. rewrite HC. simpl. rewrite HC.
    rewrite mult_tr by done. simpl.
    destruct (mzip _ _ _); simpl; [|done]. rewrite Ha. done.
  - rewrite update_None by done. intros H.
    eapply (Hsome (snd (_init_internals x s))) in H; simpl; done.
Qed.

Lemma fix_guard_raises s e :
  fst (_check_roundoff (scast (_tlen s) (_typecode s)) (_typecode s) s) = Raise e ->
  fix_ s = (Raise e, s).
Proof.
  intros H. unfold fix_. monad_unfold.
  destruct (check_roundoff_iff s (scast (_tlen s) (_typecode s)) (_typecode s))
    as (_ & _ & _ & _ & Hs).
  destruct (_check_roundoff _ _ s) as [r s0]. simpl in *. subst. done.
Qed.

Lemma fix_ok s C a :
  _cov_mtx s = Some C -> _avg s = Some a ->
  nrows C = length a -> ncols C = length a ->
  ~ ceiling_reached (Qc_of_Z (_tlen s)) (_typecode s) ->
  (_tlen s <> 0)%Z -> (_tlen s <> 1)%Z ->
  fix_ s = (Ok (plain_cov C a (Qc_of_Z (_tlen s)),
                map (fun e => e / Qc_of_Z (_tlen s)) a,
                Qc_of_Z (_tlen s)), cleared s).
Proof.
  intros HC Ha H1 H2 Hg Hn0 Hn1. unfold fix_, scast. monad_unfold.
  rewrite (check_roundoff_passes s _ _ Hg). rewrite Ha. simpl.
  set (n := Qc_of_Z (_tlen s)).
  assert (En0 : n <> 0).
  { unfold n. rewrite <- Z2Qc_inj_0. intros E. by apply Z2Qc_inj in E. }
  assert (En1 : n - Qc_of_Z 1 <> 0).
  { unfold n. rewrite <- Z2Qc_inj_sub, <- Z2Qc_inj_0. intros E.
    apply Z2Qc_inj in E. lia. }
  unfold mdiv at 1. rewrite bool_decide_eq_false_2; simpl.
  2:{ intros E. apply Qcmult_integral in E. tauto. }
  rewrite HC. unfold mdiv. rewrite bool_decide_eq_false_2 by done. simpl.
  unfold mzip, nrows. simpl. rewrite !length_map.
  rewrite bool_decide_eq_true_2 by (unfold nrows in H1; done). simpl.
  unfold vdiv. rewrite bool_decide_eq_false_2 by done. simpl.
  rewrite Ha. simpl. done.
Qed.

(** [fix] never returns from an accumulator without buffers. *)
Lemma fix_None_raises s :
  _avg s = None -> exists e, fst (fix_ s) = Raise e.
Proof.
  intros Ha. unfold fix_. monad_unfold.
  destruct (_check_roundoff _ _ s) as [[[]|e] s0]; simpl; [|eauto].
  rewrite Ha. simpl. eauto.
Qed.

(** A successful [fix] returns the typed count and clears the state. *)
Lemma fix_Ok_inv s r s' :
  fix_ s = (Ok r, s') ->
  snd r = Qc_of_Z (_tlen s) /\ s' = cleared s.
Proof.
  unfold fix_, scast. monad_unfold.
  destruct (check_roundoff_iff s (Qc_of_Z (_tlen s)) (_typecode s))
    as (_ & _ & _ & _ & Hs).
  destruct (_check_roundoff _ _ s) as [[[]|e] s0]; simpl in *; [subst s0|done].
  destruct (_avg s) as [a|] eqn:Ha; simpl; [|done].
  destruct (mdiv _ _) as [am|e]; simpl; [|done].
  destruct (_cov_mtx s) as [C|]; simpl; [|done].
  destruct (mdiv C _) as [C1|e]; simpl; [|done].
  destruct (mzip _ _ _) as [C2|e]; simpl; [|done].
  rewrite Ha; simpl.
  destruct (vdiv a _) as [a1|e]; simpl; [|done].
  intros [= <- <-]. done.
Qed.
End PlainFacts.

(** * Facts about [DelayCovarianceMatrix] *)

Section DelayFacts.
Import DelayCovarianceMatrix.

Lemma delay_update_None x s :
  _cov_mtx s = None -> update x s = update x (snd (_init_internals x s)).
Proof.
  intros HC. unfold update. monad_unfold. rewrite HC. simpl. done.
Qed.

(** A successful [update] on allocated buffers keeps the lag, the
    typecode and the dimension, and adds [tlen - dt] to the count. *)
Lemma delay_update_Ok_frame x s s' :
  is_Some (_cov_mtx s) -> update x s = (Ok tt, s') ->
  _dt s' = _dt s /\ _typecode s' = _typecode s /\ _input_dim s' = _input_dim s
  /\ _tlen s' = (_tlen s + (Z.of_nat (nrows (values x)) - _dt s))%Z
  /\ is_Some (_cov_mtx s').
Proof.
  intros [C HC]. unfold update, refcast. monad_unfold. rewrite HC. simpl.
  intros H. repeat case_match; simplify_eq; simpl; eauto 10.
Qed.

Lemma delay_update_Ok_Some x s s' :
  update x s = (Ok tt, s') -> is_Some (_cov_mtx s').
Proof.
  destruct (_cov_mtx s) as [C|] eqn:HC.
  - intros H. eapply delay_update_Ok_frame in H; [tauto|by rewrite HC].
  - rewrite delay_update_None by done. intros H.
    eapply delay_update_Ok_frame in H; [tauto|]. simpl. eauto.
Qed.

Lemma delay_update_all_frame bs s s' :
  is_Some (_cov_mtx s) -> update_all bs s = (Ok tt, s') ->
  _dt s' = _dt s /\ _typecode s' = _typecode s.
Proof.
  revert s. induction bs as [|x bs IH]; intros s HC; simpl.
  - unfold ret. by intros [= <-].
  - unfold bind. destruct (update x s) as [[[]|e] s1] eqn:E; [|done].
    intros H. apply delay_update_Ok_frame in E as (E1 & E2 & _ & _ & E3); [|done].
    apply IH in H; [|done]. destruct H as [-> ->]. done.
Qed.

(** An undersized batch: the check comes after [_init_internals]. *)
Lemma delay_update_short x s :
  (Z.of_nat (nrows (values x)) < _dt s + 1)%Z ->
  update x s =
    (Raise (MDPException (Z.of_nat (nrows (values x))) (_dt s + 1)),
     match _cov_mtx s with
     | Some _ => s
     | None => snd (_init_internals x s)
     end).
Proof.
  intros H. unfold update, refcast. monad_unfold.
  destruct (_cov_mtx s) as [C|] eqn:HC; simpl.
  - rewrite (proj2 (Z.ltb_lt _ _)) by done. done.
  - rewrite (proj2 (Z.ltb_lt _ _)) by done. done.
Qed.

Lemma delay_fix_guard_raises A s e :
  fst (_check_roundoff (scast (_tlen s) (_typecode s)) (_typecode s) s) = Raise e ->
  fix_ A s = (Raise e, s).
Proof.
  intros H. unfold fix_. monad_unfold.
  destruct (check_roundoff_iff s (scast (_tlen s) (_typecode s)) (_typecode s))
    as (_ & _ & _ & _ & Hs).
  destruct (_check_roundoff _ _ s) as [r s0]. simpl in *. subst. done.
Qed.

Lemma delay_fix_None_raises A s :
  _avg s = None -> exists e, fst (fix_ A s) = Raise e.
Proof.
  intros Ha. unfold fix_. monad_unfold.
  destruct (_check_roundoff _ _ s) as [[[]|e] s0]; simpl; [|eauto].
  rewrite Ha. simpl. eauto.
Qed.

Lemma delay_fix_Ok_inv A s r s' :
  fix_ A s = (Ok r, s') ->
  snd r = Qc_of_Z (_tlen s) /\ s' = delay_cleared s.
Proof.
  unfold fix_, scast. monad_unfold.
  destruct (check_roundoff_iff s (Qc_of_Z (_tlen s)) (_typecode s))
    as (_ & _ & _ & _ & Hs).
  destruct (_check_roundoff _ _ s) as [[[]|e] s0]; simpl in *; [subst s0|done].
  destruct (_avg s) as [a|] eqn:Ha; simpl; [|done].
  destruct (_avg_dt s) as [b|] eqn:Hb; simpl; [|done].
  destruct (mdiv _ _) as [am|e]; simpl; [|done].
  destruct (_cov_mtx s) as [C|]; simpl; [|done].
  destruct (mzip _ _ _) as [C1|e]; simpl; [|done].
  destruct (mdiv C1 _) as [C2|e]; simpl; [|done].
  destruct (match A with Some _ => _ | None => _ end) as [C3|e]; simpl; [|done].
  rewrite Ha; simpl.
  destruct (vdiv a _) as [a1|e]; simpl; [|done].
  rewrite Hb; simpl.
  destruct (vdiv b _) as [b1|e]; simpl; [|done].
  intros [= <- <-]. done.
Qed.
End DelayFacts.

(** * Splitting a batch in two *)

Lemma rows_zip_tab f n m g h :
  zip_with (zip_with f) (rows (mtab n m g)) (rows (mtab n m h))
  = rows (mtab n m (fun i j => f (g i j) (h i j))).
Proof.
  pose proof (mzip_tab f n m g h) as H. unfold mzip in H.
  rewrite !nrows_mtab in H. simpl in H.
  rewrite bool_decide_eq_true_2 in H by done. by injection H.
Qed.

Lemma gram_app D r1 r2 i j :
  gram (mkMatrix D (r1 ++ r2)) i j = gram (mkMatrix D r1) i j + gram (mkMatrix D r2) i j.
Proof.
  unfold gram. rewrite !column_app. apply dot_app. by rewrite !column_length.
Qed.

Lemma colsum_app D r1 r2 j :
  colsum (mkMatrix D (r1 ++ r2)) j = colsum (mkMatrix D r1) j + colsum (mkMatrix D r2) j.
Proof. unfold colsum. rewrite column_app. apply vsum_app. Qed.

Section PlainConcat.
Import CovarianceMatrix.

Variables (tc1 tc2 : string) (D : nat) (r1 r2 : list vec).

Let x1 := mkNdarray tc1 (mkMatrix D r1).
Let x2 := mkNdarray tc2 (mkMatrix D r2).
Let x12 := mkNdarray tc1 (mkMatrix D (r1 ++ r2)).

Lemma sum_rows_app C :
  sum_rows (sum_rows C (values x1)) (values x2) = sum_rows C (values x12).
Proof.
  unfold sum_rows; simpl. f_equal.
  rewrite zip_with_assoc_gen.
  - f_equal. rewrite zip_with_map_same. apply map_ext. intros i.
    unfold vtab. rewrite zip_with_map_same. apply map_ext. intros j.
    symmetry. apply gram_app.
  - intros u v w. apply zip_with_assoc_gen. intros; ring.
Qed.

Lemma sum0_app a :
  zip_with Qcplus (zip_with Qcplus a (sum0 (values x1))) (sum0 (values x2))
  = zip_with Qcplus a (sum0 (values x12)).
Proof.
  rewrite zip_with_assoc_gen by (intros; ring). f_equal.
  rewrite !sum0_tab. simpl. unfold vtab. rewrite zip_with_map_same.
  apply map_ext. intros j. symmetry. apply colsum_app.
Qed.

Lemma update_concat_shaped s :
  shaped D s ->
  bind (update x1) (fun _ => update x2) s = update x12 s.
Proof.
  intros Hs.
  destruct (update_shaped x1 s Hs) as (s1 & E1 & Hs1 & _).
  destruct Hs as (C & a & HC & Ha & H1 & H2 & H3).
  unfold bind. rewrite E1.
  rewrite (update_Some x1 s C a HC Ha), plain_step_ok in E1 by done.
  injection E1 as <-.
  erewrite (update_Some x2) by done.
  rewrite plain_step_ok; simpl.
  2:{ by apply sum_rows_shape. }
  2:{ done. }
  2:{ rewrite length_zip_with, sum0_tab, vtab_length. simpl. lia. }
  rewrite (update_Some x12 s C a HC Ha), plain_step_ok by done. simpl.
  rewrite sum_rows_app, sum0_app. do 2 f_equal.
  unfold nrows; simpl. rewrite length_app. lia.
Qed.

Lemma update_concat_mismatch s D' :
  shaped D' s -> D' <> D ->
  update x1 s = (Raise ValueError, s) /\ update x12 s = (Raise ValueError, s).
Proof.
  intros (C & a & HC & Ha & H1 & H2 & H3) Hne.
  rewrite (update_Some x1 s C a HC Ha), (update_Some x12 s C a HC Ha).
  rewrite !plain_step_mismatch; [done| |]; simpl; intros [? ?]; congruence.
Qed.

Lemma update_concat s :
  (_cov_mtx s = None \/ exists D', shaped D' s) ->
  bind (update x1) (fun _ => update x2) s = update x12 s.
Proof.
  intros [HN|[D' Hs]].
  - unfold bind. rewrite (update_None x1), (update_None x12) by done.
    apply (update_concat_shaped (snd (_init_internals x1 s))).
    apply (init_internals_shaped x1).
  - destruct (decide (D' = D)) as [->|Hne]; [by apply update_concat_shaped|].
    destruct (update_concat_mismatch s D' Hs Hne) as [E1 E2].
    unfold bind. by rewrite E1, E2.
Qed.
End PlainConcat.

(** * Properties of [CovarianceMatrix] *)

Lemma eq_by_compute {A} `{EqDecision A} (a b : A) : bool_decide (a = b) = true -> a = b.
Proof. apply bool_decide_eq_true_1. Qed.

Ltac by_compute := apply eq_by_compute; vm_compute; reflexivity.

Lemma small_count_passes (n : Z) type :
  (n < 10 ^ 5)%Z -> ~ ceiling_reached (Qc_of_Z n) type.
Proof.
  intros Hn [[_ H]|[_ H]]; rewrite int_of_Z in H; lia.
Qed.

(** C2: one batch [[1,2],[3,4],[5,6]] and one [fix], on an accumulator
    constructed with any typecode and a batch of any element type: the count
    returned is 3, the mean [3,4], the covariance [[4,4],[4,4]] (the unbiased
    sample covariance of the three points). *)
Theorem plain_scenario_123456 (typecode0 : option string) (tcx : string) :
  fst (CM.cycle [batch_123456 tcx] (CM.__init__ typecode0))
  = Ok (mkMatrix 2 [[q 4; q 4]; [q 4; q 4]], [q 3; q 4], q 3).
Proof.
  unfold CM.cycle, CM.update_all, bind.
  rewrite update_None by done.
  erewrite update_Some by done.
  rewrite plain_step_ok by done.
  unfold ret. simpl.
  erewrite fix_ok; simpl; try done.
  - f_equal. by_compute.
  - by apply small_count_passes.
Qed.

(** ** Runs of several batches *)

Lemma settled_typecode_idem typecode0 x :
  settled_typecode (settled_typecode typecode0 x) x = settled_typecode typecode0 x.
Proof.
  unfold settled_typecode. destruct (truthy typecode0) eqn:E; [by rewrite E|].
  by destruct (truthy (Some (typecode x))).
Qed.

Section PlainRuns.
Import CovarianceMatrix.

Lemma update_Ok_frame x s s' :
  is_Some (_cov_mtx s) -> update x s = (Ok tt, s') ->
  _typecode s' = _typecode s /\ _input_dim s' = _input_dim s.
Proof.
  intros [C HC]. unfold update, refcast. monad_unfold. rewrite HC. simpl.
  rewrite mult_tr by done. simpl. rewrite HC.
  destruct (mzip _ _ _) as [C'|e]; simpl; [|done].
  destruct (_avg s) as [a|]; simpl; [|done].
  destruct (vzip _ _ _) as [a'|e]; simpl; [|done].
  intros [= <-]. done.
Qed.

Lemma update_all_Ok bs : forall s s',
  update_all bs s = (Ok tt, s') ->
  _tlen s' = (_tlen s + total_rows bs)%Z
  /\ (is_Some (_cov_mtx s) -> _typecode s' = _typecode s /\ is_Some (_cov_mtx s')).
Proof.
  induction bs as [|x bs IH]; intros s s'; simpl.
  - unfold ret. intros [= <-]. split; [lia|done].
  - unfold bind. destruct (update x s) as [[[]|e] s1] eqn:E; [|done].
    intros H. apply IH in H as [H1 H2].
    destruct (update_Ok_tlen x s s1 E) as [E1 E2].
    split; [lia|]. intros HC.
    destruct (update_Ok_frame x s s1 HC E) as [E3 _].
    destruct (H2 E2) as [-> ?]. done.
Qed.

Lemma update_all_shaped D bs : forall s,
  shaped D s -> Forall (fun x => ncols (values x) = D) bs ->
  exists s', update_all bs s = (Ok tt, s') /\ shaped D s'
             /\ _typecode s' = _typecode s
             /\ _tlen s' = (_tlen s + total_rows bs)%Z.
Proof.
  induction bs as [|x bs IH]; intros s Hs Hbs; simpl.
  - exists s. unfold ret. repeat split; [done|lia].
  - inversion Hbs as [|? ? Hx Hbs']; subst.
    destruct (update_shaped x s Hs) as (s1 & E & Hs1 & Et & En & _).
    destruct (IH s1 Hs1 Hbs') as (s' & E' & Hs' & Et' & En').
    exists s'. unfold bind. rewrite E. repeat split; [done|done|congruence|lia].
Qed.

(** The first [update] of an accumulation phase, from any state without
    buffers. *)
Lemma update_first x s :
  _cov_mtx s = None ->
  exists s', update x s = (Ok tt, s') /\ shaped (ncols (values x)) s'
             /\ _typecode s' = settled_typecode (_typecode s) x
             /\ _tlen s' = (_tlen s + Z.of_nat (nrows (values x)))%Z.
Proof.
  intros HC. rewrite update_None by done.
  destruct (update_shaped x _ (init_internals_shaped x s)) as (s' & E & Hs & Et & En & _).
  exists s'. done.
Qed.

(** Two states without buffers, with the same count and typecodes that
    settle alike, take the same first [update]. *)
Lemma update_first_eq x s1 s2 :
  _cov_mtx s1 = None -> _cov_mtx s2 = None -> _tlen s1 = _tlen s2 ->
  settled_typecode (_typecode s1) x = settled_typecode (_typecode s2) x ->
  update x s1 = update x s2.
Proof.
  intros H1 H2 Hn Ht. rewrite (update_None x s1), (update_None x s2) by done.
  f_equal. unfold _init_internals; simpl. unfold settled_typecode in Ht.
  by rewrite Ht, Hn.
Qed.
End PlainRuns.

Lemma plain_ready_init typecode0 : plain_ready (CM.__init__ typecode0).
Proof. by left. Qed.

(** C5: a sample sequence of element type [tc] and width [D] cut into two
    batches [r1], [r2]: [update(B1); update(B2); fix()] and
    [update(B1 ++ B2); fix()] have the same outcome (covariance, mean and
    count, or the same exception) and leave the same state, from a fresh
    accumulator and from any accumulator in the middle of an accumulation. *)
Theorem plain_split_batches (tc : string) (D : nat) (r1 r2 : list vec) (s : CM.t) :
  plain_ready s ->
  CM.cycle [mkNdarray tc (mkMatrix D r1); mkNdarray tc (mkMatrix D r2)] s
  = CM.cycle [mkNdarray tc (mkMatrix D (r1 ++ r2))] s.
Proof.
  intros Hs. pose proof (update_concat tc tc D r1 r2 s Hs) as H.
  unfold CM.cycle, CM.update_all, bind, ret in *.
  destruct (CM.update (mkNdarray tc (mkMatrix D r1)) s) as [[[]|e] s1].
  - destruct (CM.update (mkNdarray tc (mkMatrix D r2)) s1) as [[[]|e] s2];
      rewrite <- H; done.
  - rewrite <- H. done.
Qed.

Lemma plain_split_batches_witness :
  plain_ready (CM.__init__ None) /\
  CM.cycle [mkNdarray "d" (mkMatrix 2 [[q 1; q 2]]);
            mkNdarray "d" (mkMatrix 2 [[q 3; q 4]; [q 5; q 6]])] (CM.__init__ None)
  = CM.cycle [batch_123456 "d"] (CM.__init__ None).
Proof.
  split; [apply plain_ready_init|].
  apply (plain_split_batches "d" 2 [[q 1; q 2]] [[q 3; q 4]; [q 5; q 6]]).
  apply plain_ready_init.
Defined.

(** C9: after the batches [bs] fed to an accumulator that held no data, the
    third component of what [fix] returns is the number of rows of [bs] (as
    a scalar of the element type); and [fix] does return when the batches
    have one width, there are at least 2 rows and the guard's ceiling is not
    reached. *)
Theorem plain_fix_count (s : CM.t) (bs : list ndarray) :
  CM._cov_mtx s = None -> CM._tlen s = 0%Z ->
  (forall r s', CM.cycle bs s = (Ok r, s') -> snd r = Qc_of_Z (total_rows bs))
  /\ (forall x bs' D,
        bs = x :: bs' ->
        Forall (fun y => ncols (values y) = D) bs ->
        (2 <= total_rows bs)%Z ->
        ~ ceiling_reached (Qc_of_Z (total_rows bs)) (settled_typecode (CM._typecode s) x) ->
        exists cov avg, fst (CM.cycle bs s) = Ok (cov, avg, Qc_of_Z (total_rows bs))).
Proof.
  intros HC Hn. split.
  - intros r s'. unfold CM.cycle, bind.
    destruct (CM.update_all bs s) as [[[]|e] s1] eqn:E; [|done].
    intros H. apply fix_Ok_inv in H as [-> _].
    apply update_all_Ok in E as [-> _]. rewrite Hn. done.
  - intros x bs' D -> Hbs H2 Hg. inversion Hbs as [|? ? Hx Hbs']; subst.
    destruct (update_first x s HC) as (s1 & E1 & Hs1 & Et1 & En1).
    destruct (update_all_shaped _ bs' s1 Hs1 Hbs') as (s2 & E2 & Hs2 & Et2 & En2).
    unfold CM.cycle, bind. simpl. unfold bind. rewrite E1, E2.
    destruct Hs2 as (C & a & HC2 & Ha2 & S1 & S2 & S3).
    assert (En : CM._tlen s2 = total_rows (x :: bs')) by (simpl; lia).
    erewrite fix_ok; try done.
    + simpl. rewrite En. eauto.
    + congruence.
    + congruence.
    + rewrite En, Et2, Et1. done.
    + lia.
    + lia.
Qed.

Lemma plain_fix_count_witness :
  exists cov avg, fst (CM.cycle [batch_123456 "f"] (CM.__init__ None)) = Ok (cov, avg, q 3).
Proof.
  destruct (plain_fix_count (CM.__init__ None) [batch_123456 "f"] eq_refl eq_refl)
    as [_ H].
  apply (H (batch_123456 "f") [] 2%nat eq_refl).
  - repeat constructor.
  - vm_compute. discriminate.
  - apply small_count_passes. vm_compute. reflexivity.
Defined.

(** * Properties of [DelayCovarianceMatrix] *)

Section DelayRuns.
Import DelayCovarianceMatrix.

Lemma delay_update_first_frame x s s' :
  _cov_mtx s = None -> update x s = (Ok tt, s') ->
  _dt s' = _dt s /\ _typecode s' = settled_typecode (_typecode s) x
  /\ is_Some (_cov_mtx s').
Proof.
  intros HC. rewrite delay_update_None by done. intros H.
  apply delay_update_Ok_frame in H as (E1 & E2 & _ & _ & E3); [|simpl; eauto].
  done.
Qed.

Lemma delay_update_first_eq x s1 s2 :
  _cov_mtx s1 = None -> _cov_mtx s2 = None -> _tlen s1 = _tlen s2 ->
  _dt s1 = _dt s2 ->
  settled_typecode (_typecode s1) x = settled_typecode (_typecode s2) x ->
  update x s1 = update x s2.
Proof.
  intros H1 H2 Hn Hd Ht.
  rewrite (delay_update_None x s1), (delay_update_None x s2) by done.
  f_equal. unfold _init_internals; simpl. unfold settled_typecode in Ht.
  by rewrite Ht, Hn, Hd.
Qed.
End DelayRuns.

Lemma plain_reuse (s0 : CM.t) (bs : list ndarray) r s1 :
  plain_empty s0 -> CM.cycle bs s0 = (Ok r, s1) ->
  plain_empty s1 /\ CM.cycle bs s1 = (Ok r, s1).
Proof.
  intros (HC & Ha & Hn) H.
  destruct bs as [|x bs].
  { destruct (fix_None_raises s0 Ha) as [e He].
    unfold CM.cycle, bind in H; simpl in H. unfold ret in H. rewrite H in He. done. }
  pose proof H as H0.
  unfold CM.cycle, bind in H. simpl in H. unfold bind in H.
  destruct (CM.update x s0) as [[[]|e] sa] eqn:Ea; [|done].
  destruct (CM.update_all bs sa) as [[[]|e] sb] eqn:Eb; [|done].
  apply fix_Ok_inv in H as [_ ->].
  split; [done|].
  destruct (update_first x s0 HC) as (sa' & Ea' & _ & Eta & _).
  rewrite Ea in Ea'. injection Ea' as <-.
  destruct (update_Ok_tlen x s0 sa Ea) as [_ HCa].
  destruct (update_all_Ok bs sa sb Eb) as [_ Hb]. destruct (Hb HCa) as [Etb _].
  assert (E : CM.update x (cleared sb) = CM.update x s0).
  { apply update_first_eq; simpl; try done.
    rewrite Etb, Eta. apply settled_typecode_idem. }
  rewrite <- H0. unfold CM.cycle, bind. simpl. unfold bind. by rewrite E.
Qed.

Lemma delay_reuse A (s0 : DCM.t) (bs : list ndarray) r s1 :
  delay_empty s0 -> DCM.cycle A bs s0 = (Ok r, s1) ->
  delay_empty s1 /\ DCM.cycle A bs s1 = (Ok r, s1).
Proof.
  intros (HC & Ha & Hb & Hn) H.
  destruct bs as [|x bs].
  { destruct (delay_fix_None_raises A s0 Ha) as [e He].
    unfold DCM.cycle, bind in H; simpl in H. unfold ret in H. rewrite H in He. done. }
  pose proof H as H0.
  unfold DCM.cycle, bind in H. simpl in H. unfold bind in H.
  destruct (DCM.update x s0) as [[[]|e] sa] eqn:Ea; [|done].
  destruct (DCM.update_all bs sa) as [[[]|e] sb] eqn:Eb; [|done].
  apply delay_fix_Ok_inv in H as [_ ->].
  split; [done|].
  destruct (delay_update_first_frame x s0 sa HC Ea) as (Eda & Eta & HCa).
  destruct (delay_update_all_frame bs sa sb HCa Eb) as [Edb Etb].
  assert (E : DCM.update x (delay_cleared sb) = DCM.update x s0).
  { apply delay_update_first_eq; simpl; try done.
    - congruence.
    - rewrite Etb, Eta. apply settled_typecode_idem. }
  rewrite <- H0. unfold DCM.cycle, bind. simpl. unfold bind. by rewrite E.
Qed.

(** C8: a successful [fix] leaves no buffers and a zero count, and the same
    batches fed again to the accumulator it leaves give the same result as
    they gave in the cycle before, which started from any state holding no
    data (a freshly constructed accumulator in particular); for both
    classes, the delayed one with any transform. *)
Theorem reuse_after_fix :
  (forall (s : CM.t) r s', CM.fix_ s = (Ok r, s') -> plain_empty s')
  /\ (forall (s0 : CM.t) bs r s1,
        plain_empty s0 -> CM.cycle bs s0 = (Ok r, s1) ->
        plain_empty s1 /\ CM.cycle bs s1 = (Ok r, s1))
  /\ (forall A (s : DCM.t) r s', DCM.fix_ A s = (Ok r, s') -> delay_empty s')
  /\ (forall A (s0 : DCM.t) bs r s1,
        delay_empty s0 -> DCM.cycle A bs s0 = (Ok r, s1) ->
        delay_empty s1 /\ DCM.cycle A bs s1 = (Ok r, s1)).
Proof.
  split; [|split; [|split]].
  - intros s r s' H. apply fix_Ok_inv in H as [_ ->]. done.
  - intros s0 bs r s1. apply plain_reuse.
  - intros A s r s' H. apply delay_fix_Ok_inv in H as [_ ->]. done.
  - intros A s0 bs r s1. apply delay_reuse.
Qed.

Lemma reuse_after_fix_witness :
  let r := (mkMatrix 2 [[q 4; q 4]; [q 4; q 4]], [q 3; q 4], q 3) in
  let s1 := CM.mk (Some "d") None None 0 (Some 2%nat) in
  let rd := (mkMatrix 2 [[q 2; q 2]; [q 2; q 2]], [q 2; q 3], [q 4; q 5], q 2) in
  let sd1 := DCM.mk 1 (Some "d") None None None 0 (Some 2%nat) in
  CM.cycle [batch_123456 "d"] s1 = (Ok r, s1)
  /\ DCM.cycle None [batch_123456 "d"] sd1 = (Ok rd, sd1).
Proof.
  destruct reuse_after_fix as (_ & Hp & _ & Hd). split.
  - apply (Hp (CM.__init__ None)); [done|by_compute].
  - apply (Hd None (DCM.__init__ 1 None)); [done|by_compute].
Defined.

(** C7: when the guard's ceiling is reached, [fix] raises the guard's
    warning and the accumulator is exactly as before the call, for both
    classes. *)
Theorem fix_guard_keeps_state :
  (forall s : CM.t,
      ceiling_reached (scast (CM._tlen s) (CM._typecode s)) (CM._typecode s) ->
      exists ty, CM._typecode s = Some ty /\
        CM.fix_ s = (Raise (MDPWarning (scast (CM._tlen s) (CM._typecode s)) ty), s))
  /\ (forall A (s : DCM.t),
      ceiling_reached (scast (DCM._tlen s) (DCM._typecode s)) (DCM._typecode s) ->
      exists ty, DCM._typecode s = Some ty /\
        DCM.fix_ A s = (Raise (MDPWarning (scast (DCM._tlen s) (DCM._typecode s)) ty), s)).
Proof.
  split.
  - intros s H. destruct (check_roundoff_raises s _ _ H) as (ty & Hty & E).
    exists ty. split; [done|]. apply fix_guard_raises. by rewrite E.
  - intros A s H. destruct (check_roundoff_raises s _ _ H) as (ty & Hty & E).
    exists ty. split; [done|]. apply delay_fix_guard_raises. by rewrite E.
Qed.

Lemma saturated_plain_reached :
  ceiling_reached (scast (CM._tlen saturated_plain) (CM._typecode saturated_plain))
                  (CM._typecode saturated_plain).
Proof. right. split; [done|]. unfold scast. rewrite int_of_Z. done. Qed.

Lemma saturated_delay_reached :
  ceiling_reached (scast (DCM._tlen saturated_delay) (DCM._typecode saturated_delay))
                  (DCM._typecode saturated_delay).
Proof. right. split; [done|]. unfold scast. rewrite int_of_Z. done. Qed.

Lemma fix_guard_keeps_state_witness :
  (exists e, CM.fix_ saturated_plain = (Raise e, saturated_plain))
  /\ (exists e, DCM.fix_ None saturated_delay = (Raise e, saturated_delay)).
Proof.
  destruct fix_guard_keeps_state as [Hp Hd]. split.
  - destruct (Hp saturated_plain saturated_plain_reached) as (ty & _ & E). eauto.
  - destruct (Hd None saturated_delay saturated_delay_reached) as (ty & _ & E). eauto.
Defined.

(** ** Undersized batches *)

(** C4, as stated, fails on an accumulator that has not seen a batch yet:
    with [dt = 3] and a 2-row batch, [update] raises the data-validity
    error, but [_init_internals] has already run and the state differs from
    the one before the call. *)
Lemma delay_short_batch_fresh_mutated :
  let s := DCM.__init__ 3 None in
  (Z.of_nat (nrows (values two_rows)) < DCM._dt s + 1)%Z
  /\ fst (DCM.update two_rows s) = Raise (MDPException 2 4)
  /\ snd (DCM.update two_rows s) <> s
  /\ DCM._typecode (snd (DCM.update two_rows s)) = Some "d"
  /\ DCM._cov_mtx (snd (DCM.update two_rows s)) = Some (zeros2 2 2).
Proof.
  intros s.
  assert (H : (Z.of_nat (nrows (values two_rows)) < DCM._dt s + 1)%Z)
    by (vm_compute; reflexivity).
  rewrite (delay_update_short two_rows s H). simpl.
  repeat split; try done.
Qed.

(** C4, amended: an undersized batch always raises the data-validity error
    and never changes the count or the lag; an accumulator whose buffers are
    allocated is left exactly as it was, and one without buffers is left as
    [_init_internals] sets it up. *)
Theorem delay_short_batch (s : DCM.t) (x : ndarray) :
  (Z.of_nat (nrows (values x)) < DCM._dt s + 1)%Z ->
  fst (DCM.update x s) = Raise (MDPException (Z.of_nat (nrows (values x))) (DCM._dt s + 1))
  /\ (is_Some (DCM._cov_mtx s) -> snd (DCM.update x s) = s)
  /\ (DCM._cov_mtx s = None -> snd (DCM.update x s) = snd (DCM._init_internals x s))
  /\ DCM._tlen (snd (DCM.update x s)) = DCM._tlen s
  /\ DCM._dt (snd (DCM.update x s)) = DCM._dt s.
Proof.
  intros H. rewrite delay_update_short by done. simpl.
  destruct (DCM._cov_mtx s) as [C|] eqn:HC; simpl; repeat split; try done.
Qed.

Lemma delay_short_batch_witness :
  let s := snd (DCM.update five_rows (DCM.__init__ 3 None)) in
  fst (DCM.update two_rows s) = Raise (MDPException 2 4)
  /\ snd (DCM.update two_rows s) = s.
Proof.
  set (s := snd (DCM.update five_rows (DCM.__init__ 3 None))).
  assert (Hdt : DCM._dt s = 3%Z) by (vm_compute; reflexivity).
  assert (HC : is_Some (DCM._cov_mtx s)) by (vm_compute; eauto).
  assert (Hlt : (Z.of_nat (nrows (values two_rows)) < DCM._dt s + 1)%Z)
    by (rewrite Hdt; vm_compute; reflexivity).
  destruct (delay_short_batch s two_rows Hlt) as (E1 & E2 & _).
  split; [|by apply E2].
  rewrite E1, Hdt. reflexivity.
Defined.

(** ** What [fix] returns *)

Lemma rows_map_tab (h : Qc -> Qc) n m f :
  map (map h) (rows (mtab n m f)) = rows (mtab n m (fun i j => h (f i j))).
Proof.
  unfold mtab; simpl. rewrite map_map. apply map_ext. intros i.
  unfold vtab. by rewrite map_map.
Qed.

Lemma vec_tab (a : vec) : a = vtab (length a) (fun i => nth i a 0).
Proof.
  apply (nth_ext _ _ 0 0).
  - by rewrite vtab_length.
  - intros i Hi. unfold vtab.
    rewrite (nth_indep (map _ _) 0 (nth 0%nat a 0)) by (by rewrite length_map, length_seq).
    rewrite (map_nth (fun i => nth i a 0) (seq 0 (length a)) 0%nat i).
    by rewrite seq_nth.
Qed.

Lemma Qc_of_Z_neq (z k : Z) : z <> k -> Qc_of_Z z - Qc_of_Z k <> 0.
Proof.
  intros H E. rewrite <- Z2Qc_inj_sub, <- Z2Qc_inj_0 in E.
  apply Z2Qc_inj in E. lia.
Qed.

Lemma Qc_of_Z_neq0 (z : Z) : z <> 0%Z -> Qc_of_Z z <> 0.
Proof. intros H E. rewrite <- Z2Qc_inj_0 in E. by apply Z2Qc_inj in E. Qed.

Section DelayFix.
Import DelayCovarianceMatrix.

Lemma delay_fix_ok A s C a b :
  _cov_mtx s = Some C -> _avg s = Some a -> _avg_dt s = Some b ->
  nrows C = length a -> ncols C = length b ->
  ~ ceiling_reached (Qc_of_Z (_tlen s)) (_typecode s) ->
  (_tlen s <> 0)%Z -> (_tlen s <> 1)%Z ->
  let n := Qc_of_Z (_tlen s) in
  fix_ A s =
    match transformed A (delay_cov C a b n) with
    | Ok cov =>
        (Ok (cov, map (fun e => e / n) a, map (fun e => e / n) b, n), delay_cleared s)
    | Raise e => (Raise e, set_cov_mtx (Some (delay_cov C a b n)) s)
    end.
Proof.
  intros HC Ha Hb H1 H2 Hg Hn0 Hn1 n. unfold fix_, scast. monad_unfold.
  rewrite (check_roundoff_passes s _ _ Hg). rewrite Ha, Hb. simpl.
  fold n.
  assert (En0 : n <> 0) by (by apply Qc_of_Z_neq0).
  assert (En1 : n - Qc_of_Z 1 <> 0) by (by apply Qc_of_Z_neq).
  unfold mdiv at 1. rewrite bool_decide_eq_false_2 by done. simpl.
  rewrite HC. unfold mzip, nrows. simpl. rewrite !length_map.
  rewrite bool_decide_eq_true_2 by (unfold nrows in H1; done). simpl.
  unfold mdiv. rewrite bool_decide_eq_false_2 by done. simpl.
  unfold transformed, delay_cov.
  destruct (match A with Some _ => _ | None => _ end) as [cov|e]; simpl; [|done].
  rewrite Ha. unfold vdiv. rewrite bool_decide_eq_false_2 by done. simpl.
  rewrite Hb. simpl. done.
Qed.

Lemma delay_cov_tab D c f g n :
  delay_cov (mtab D D c) (vtab D f) (vtab D g) n
  = mtab D D (fun i j => (c i j - f i * g j / n) / (n - 1)).
Proof.
  unfold delay_cov. rewrite outerproduct_tab, rows_map_tab, rows_zip_tab, rows_map_tab.
  done.
Qed.

Lemma mult_ok x y :
  ncols x = nrows y ->
  exists M, mult x y = Ok M /\ nrows M = nrows x /\ ncols M = ncols y.
Proof.
  intros H. unfold mult. rewrite bool_decide_eq_true_2 by done.
  eexists. split; [done|]. unfold nrows; simpl. by rewrite length_map.
Qed.

Lemma transformed_ok A cov :
  nrows cov = ncols A -> ncols cov = ncols A ->
  exists M ACA, mult cov (tr A) = Ok M /\ mult A M = Ok ACA
                /\ transformed (Some A) cov = Ok ACA.
Proof.
  intros H1 H2.
  assert (E : nrows (tr A) = ncols A).
  { unfold nrows, tr; simpl. by rewrite length_map, length_seq. }
  destruct (mult_ok cov (tr A)) as (M & EM & HM1 & HM2); [congruence|].
  destruct (mult_ok A M) as (ACA & EA & _); [congruence|].
  exists M, ACA. unfold transformed. rewrite EM. simpl. done.
Qed.
End DelayFix.

Lemma delay_cov_entries C a b n D :
  rectangular C -> nrows C = D -> ncols C = D -> length a = D -> length b = D ->
  delay_cov C a b n
  = mtab D D (fun i j => (entry C i j - nth i a 0 * nth j b 0 / n) / (n - 1)).
Proof.
  intros HR H1 H2 H3 H4.
  rewrite <- (delay_cov_tab D (entry C) (fun i => nth i a 0) (fun j => nth j b 0) n).
  f_equal.
  - rewrite <- H1 at 1. rewrite <- H2. by apply rectangular_tab.
  - rewrite <- H3. apply vec_tab.
  - rewrite <- H4. apply vec_tab.
Qed.

Lemma map_vec_tab (h : Qc -> Qc) (a : vec) D :
  length a = D -> map h a = vtab D (fun i => h (nth i a 0)).
Proof.
  intros <-. rewrite (vec_tab a) at 1. unfold vtab. by rewrite map_map.
Qed.

(** C1, as stated, fails at the guard: with typecode ['f'] and a count of
    [1e5 >= 2], [fix] raises the precision warning and returns nothing. *)
Lemma delay_fix_formula_fails_at_ceiling :
  (2 <= DCM._tlen saturated_delay)%Z
  /\ (exists C a b, DCM._cov_mtx saturated_delay = Some C
                    /\ DCM._avg saturated_delay = Some a
                    /\ DCM._avg_dt saturated_delay = Some b
                    /\ rectangular C /\ nrows C = 1%nat /\ ncols C = 1%nat
                    /\ length a = 1%nat /\ length b = 1%nat)
  /\ forall r s', DCM.fix_ None saturated_delay <> (Ok r, s').
Proof.
  split; [done|]. split.
  - eexists _, _, _. repeat split; try done. repeat constructor.
  - intros r s' E.
    destruct (check_roundoff_raises saturated_delay _ _ saturated_delay_reached)
      as (ty & _ & Hg).
    erewrite delay_fix_guard_raises in E; [done|]. by rewrite Hg.
Qed.

(** C1, amended: on buffers [C] (D x D), [a], [b] (length D) with a count
    [n >= 2] for which the guard's ceiling is not reached, [fix()] returns
    the covariance with entries [(C[i][j] - a[i]*b[j]/n)/(n-1)], the means
    [a/n] and [b/n], and the count; with a transform [A] of [D] columns it
    returns [A * cov * tr(A)] instead of [cov], and the same means and
    count. *)
Theorem delay_fix_formula (s : DCM.t) (D : nat) (C : matrix) (a b : vec) :
  DCM._cov_mtx s = Some C -> DCM._avg s = Some a -> DCM._avg_dt s = Some b ->
  rectangular C -> nrows C = D -> ncols C = D -> length a = D -> length b = D ->
  (2 <= DCM._tlen s)%Z ->
  ~ ceiling_reached (Qc_of_Z (DCM._tlen s)) (DCM._typecode s) ->
  let n := Qc_of_Z (DCM._tlen s) in
  let cov := mtab D D (fun i j => (entry C i j - nth i a 0 * nth j b 0 / n) / (n - 1)) in
  let mean_lead := vtab D (fun i => nth i a 0 / n) in
  let mean_lag := vtab D (fun i => nth i b 0 / n) in
  DCM.fix_ None s = (Ok (cov, mean_lead, mean_lag, n), delay_cleared s)
  /\ forall A, ncols A = D ->
       exists M ACA, mult cov (tr A) = Ok M /\ mult A M = Ok ACA
         /\ DCM.fix_ (Some A) s = (Ok (ACA, mean_lead, mean_lag, n), delay_cleared s).
Proof.
  intros HC Ha Hb HR H1 H2 H3 H4 Hn Hg n cov mean_lead mean_lag.
  assert (Ecov : delay_cov C a b n = cov) by (by apply delay_cov_entries).
  assert (Ea : map (fun e => e / n) a = mean_lead) by (by apply map_vec_tab).
  assert (Eb : map (fun e => e / n) b = mean_lag) by (by apply map_vec_tab).
  split.
  - rewrite (delay_fix_ok None s C a b) by (done || lia || congruence).
    simpl. fold n. by rewrite Ecov, Ea, Eb.
  - intros A HA.
    destruct (transformed_ok A cov) as (M & ACA & EM & EA & ET).
    { unfold cov. rewrite nrows_mtab. done. }
    { done. }
    exists M, ACA. split; [done|]. split; [done|].
    rewrite (delay_fix_ok (Some A) s C a b) by (done || lia || congruence).
    fold n. rewrite Ecov, ET, Ea, Eb. done.
Qed.

(** The state named [lagged_pairs] is the one a fresh accumulator with
    [dt = 1] reaches on the batch [[1,2],[3,4],[5,6]]. *)
Example lagged_pairs_reached :
  DCM.update (batch_123456 "d") (DCM.__init__ 1 None) = (Ok tt, lagged_pairs).
Proof. by_compute. Qed.

Lemma delay_fix_formula_witness :
  DCM.fix_ None lagged_pairs
  = (Ok (mkMatrix 2 [[q 2; q 2]; [q 2; q 2]], [q 2; q 3], [q 4; q 5], q 2),
     delay_cleared lagged_pairs).
Proof.
  destruct (delay_fix_formula lagged_pairs 2
              (mkMatrix 2 [[q 18; q 22]; [q 26; q 32]]) [q 4; q 6] [q 8; q 10])
    as [E _]; try done.
  - repeat constructor.
  - apply small_count_passes. done.
  - rewrite E. by_compute.
Defined.

Lemma delay_cov_shape C a b n :
  nrows C = length a ->
  nrows (delay_cov C a b n) = nrows C /\ ncols (delay_cov C a b n) = ncols C.
Proof.
  intros H. unfold delay_cov, nrows in *; simpl. split; [|done].
  rewrite length_map, length_zip_with, !length_map. lia.
Qed.

(** C10: on buffers of dimension [D] with a count of at least 2, and a
    transform [A] of [D] columns, [fix(A)] and [fix()] agree on everything
    but the covariance: same means and count when they return (and they
    return when the guard's ceiling is not reached), same exception
    otherwise, and the same state afterwards. *)
Theorem delay_fix_transform_frame (s : DCM.t) (A : matrix) (D : nat)
    (C : matrix) (a b : vec) :
  DCM._cov_mtx s = Some C -> DCM._avg s = Some a -> DCM._avg_dt s = Some b ->
  nrows C = D -> ncols C = D -> length a = D -> length b = D ->
  ncols A = D -> (2 <= DCM._tlen s)%Z ->
  result_map means_and_count (fst (DCM.fix_ (Some A) s))
    = result_map means_and_count (fst (DCM.fix_ None s))
  /\ snd (DCM.fix_ (Some A) s) = snd (DCM.fix_ None s)
  /\ (~ ceiling_reached (Qc_of_Z (DCM._tlen s)) (DCM._typecode s) ->
      exists covA cov mean_lead mean_lag n,
        fst (DCM.fix_ (Some A) s) = Ok (covA, mean_lead, mean_lag, n)
        /\ fst (DCM.fix_ None s) = Ok (cov, mean_lead, mean_lag, n)).
Proof.
  intros HC Ha Hb H1 H2 H3 H4 HA Hn.
  destruct (decide (ceiling_reached (Qc_of_Z (DCM._tlen s)) (DCM._typecode s))) as [Hg|Hg].
  - destruct (check_roundoff_raises s _ _ Hg) as (ty & _ & E).
    rewrite !(delay_fix_guard_raises _ s (MDPWarning (Qc_of_Z (DCM._tlen s)) ty))
      by (unfold scast; by rewrite E).
    simpl. done.
  - rewrite (delay_fix_ok (Some A) s C a b), (delay_fix_ok None s C a b)
      by (done || lia || congruence).
    destruct (delay_cov_shape C a b (Qc_of_Z (DCM._tlen s))) as [S1 S2]; [congruence|].
    destruct (transformed_ok A (delay_cov C a b (Qc_of_Z (DCM._tlen s))))
      as (M & ACA & _ & _ & ET); [congruence|congruence|].
    rewrite ET. simpl. repeat split; try done. intros _. eauto 10.
Qed.

Lemma delay_fix_transform_frame_witness :
  let A := mkMatrix 2 [[q 1; q 1]] in
  result_map means_and_count (fst (DCM.fix_ (Some A) lagged_pairs))
    = Ok ([q 2; q 3], [q 4; q 5], q 2)
  /\ result_map means_and_count (fst (DCM.fix_ None lagged_pairs))
    = Ok ([q 2; q 3], [q 4; q 5], q 2).
Proof.
  intros A.
  destruct (delay_fix_transform_frame lagged_pairs A 2
              (mkMatrix 2 [[q 18; q 22]; [q 26; q 32]]) [q 4; q 6] [q 8; q 10])
    as (E & _ & _); try done.
  assert (E0 : result_map means_and_count (fst (DCM.fix_ None lagged_pairs))
               = Ok ([q 2; q 3], [q 4; q 5], q 2)) by by_compute.
  split; [|exact E0]. rewrite E. exact E0.
Defined.

(** * Lag zero *)

Lemma slice_index_0 n : slice_index n 0 = 0%nat.
Proof. unfold slice_index. simpl. lia. Qed.

Lemma slice_index_len n : slice_index n (Z.of_nat n) = n.
Proof.
  unfold slice_index. destruct (Z.ltb_spec (Z.of_nat n) 0); lia.
Qed.

Lemma row_slice_lead x : row_slice None (Some (Z.of_nat (nrows x) - 0)%Z) x = x.
Proof.
  destruct x as [m rs]. unfold row_slice, py_slice, nrows; simpl.
  rewrite Z.sub_0_r, slice_index_len, Nat.sub_0_r. by rewrite firstn_all.
Qed.

Lemma row_slice_lag x : row_slice (Some 0%Z) (Some (Z.of_nat (nrows x))) x = x.
Proof.
  destruct x as [m rs]. unfold row_slice, py_slice, nrows; simpl.
  rewrite slice_index_0, slice_index_len, Nat.sub_0_r. simpl. by rewrite firstn_all.
Qed.

Lemma row_slice_last0 x :
  row_slice (Some (Z.of_nat (nrows x) - 0)%Z) None x = mkMatrix (ncols x) [].
Proof.
  destruct x as [m rs]. unfold row_slice, py_slice, nrows; simpl.
  rewrite Z.sub_0_r, slice_index_len, Nat.sub_diag. done.
Qed.

Lemma row_slice_first0 x : row_slice None (Some 0%Z) x = mkMatrix (ncols x) [].
Proof.
  destruct x as [m rs]. unfold row_slice, py_slice, nrows; simpl.
  rewrite slice_index_0. done.
Qed.

Lemma sum0_minus_empty x :
  vzip Qcminus (sum0 x) (sum0 (mkMatrix (ncols x) [])) = Ok (sum0 x).
Proof.
  rewrite !sum0_tab. simpl. rewrite vzip_tab. f_equal. apply vtab_ext.
  intros j. unfold column, vsum; simpl. ring.
Qed.

Lemma mirror_update_Some x s C :
  CM._cov_mtx s = Some C -> (1 <= nrows (values x))%nat ->
  DCM.update x (mirror s) = (fst (CM.update x s), mirror (snd (CM.update x s))).
Proof.
  intros HC Hx. unfold DCM.update, CM.update, refcast. monad_unfold. rewrite HC. simpl.
  rewrite (proj2 (Z.ltb_ge _ _)) by lia. simpl.
  rewrite row_slice_lead, row_slice_lag, row_slice_last0, row_slice_first0.
  rewrite sum0_minus_empty. simpl.
  rewrite mult_tr by done. simpl. rewrite HC.
  destruct (mzip Qcplus C _) as [C'|e]; simpl; [|done].
  destruct (CM._avg s) as [a|] eqn:Ha; simpl; [|done].
  destruct (vzip Qcplus a _) as [a'|e] eqn:Ev; simpl; [|done].
  rewrite Ha. simpl. rewrite Ev. simpl.
  unfold mirror, DCM.set_tlen. simpl. do 2 f_equal. lia.
Qed.

Lemma mirror_update x s :
  (1 <= nrows (values x))%nat ->
  DCM.update x (mirror s) = (fst (CM.update x s), mirror (snd (CM.update x s))).
Proof.
  intros Hx. destruct (CM._cov_mtx s) as [C|] eqn:HC.
  - by eapply mirror_update_Some.
  - rewrite delay_update_None, update_None by done.
    change (snd (DCM._init_internals x (mirror s)))
      with (mirror (snd (CM._init_internals x s))).
    by eapply mirror_update_Some.
Qed.

Lemma zip_map_fuse {A} (f f' : A -> A -> A) (g h k l : A -> A) :
  (forall x y, f (g x) (h y) = k (f' x (l y))) ->
  forall u v, zip_with f (map g u) (map h v) = map k (zip_with f' u (map l v)).
Proof.
  intros E. induction u as [|x u IH]; intros [|y v]; simpl; try done.
  by rewrite E, IH.
Qed.

Lemma plain_cov_delay_cov C a n :
  n <> 0 -> n - 1 <> 0 -> plain_cov C a n = delay_cov C a a n.
Proof.
  intros Hn0 Hn1. unfold plain_cov, delay_cov. f_equal.
  apply zip_map_fuse. intros u v. apply zip_map_fuse. intros x y.
  field. done.
Qed.

Lemma mirror_fix_guard s :
  ceiling_reached (Qc_of_Z (CM._tlen s)) (CM._typecode s) ->
  fst (DCM.fix_ None (mirror s)) = result_map twice_mean (fst (CM.fix_ s)).
Proof.
  intros Hg.
  destruct (check_roundoff_raises s _ _ Hg) as (ty & Hty & E).
  destruct (check_roundoff_raises (mirror s) _ _ Hg) as (ty' & Hty' & E').
  assert (ty = ty') as <- by congruence.
  rewrite (fix_guard_raises s (MDPWarning (Qc_of_Z (CM._tlen s)) ty))
    by (unfold scast; by rewrite E).
  rewrite (delay_fix_guard_raises None (mirror s) (MDPWarning (Qc_of_Z (CM._tlen s)) ty))
    by (unfold scast; simpl; by rewrite E').
  done.
Qed.

Lemma mirror_fix_None s :
  CM._avg s = None ->
  fst (DCM.fix_ None (mirror s)) = result_map twice_mean (fst (CM.fix_ s)).
Proof.
  intros Ha.
  destruct (decide (ceiling_reached (Qc_of_Z (CM._tlen s)) (CM._typecode s))) as [Hg|Hg];
    [by apply mirror_fix_guard|].
  unfold DCM.fix_, CM.fix_, scast. monad_unfold.
  rewrite (check_roundoff_passes s _ _ Hg), (check_roundoff_passes (mirror s) _ _ Hg).
  simpl. rewrite Ha. done.
Qed.

Lemma mirror_fix_zero_division s C a :
  CM._cov_mtx s = Some C -> CM._avg s = Some a ->
  nrows C = length a -> ncols C = length a ->
  ~ ceiling_reached (Qc_of_Z (CM._tlen s)) (CM._typecode s) ->
  CM._tlen s = 0%Z \/ CM._tlen s = 1%Z ->
  fst (DCM.fix_ None (mirror s)) = Raise ZeroDivisionError
  /\ fst (CM.fix_ s) = Raise ZeroDivisionError.
Proof.
  intros HC Ha H1 H2 Hg Hn.
  unfold DCM.fix_, CM.fix_, scast. monad_unfold.
  rewrite (check_roundoff_passes s _ _ Hg), (check_roundoff_passes (mirror s) _ _ Hg).
  simpl. rewrite Ha. simpl. unfold mdiv at 1 3.
  destruct Hn as [-> | ->].
  - rewrite !bool_decide_eq_true_2; [done| |]; by_compute.
  - rewrite (bool_decide_eq_false_2 (Qc_of_Z 1 = 0)) by (by apply Qc_of_Z_neq0).
    rewrite bool_decide_eq_true_2 by by_compute. simpl. split; [|done].
    rewrite HC. unfold mzip, nrows. simpl. rewrite !length_map.
    rewrite bool_decide_eq_true_2 by (unfold nrows in H1; done). simpl.
    done.
Qed.

Lemma mirror_fix s :
  (CM._cov_mtx s = None /\ CM._avg s = None) \/ (exists D, shaped D s) ->
  fst (DCM.fix_ None (mirror s)) = result_map twice_mean (fst (CM.fix_ s)).
Proof.
  intros [[_ Ha]|(D & C & a & HC & Ha & H1 & H2 & H3)]; [by apply mirror_fix_None|].
  destruct (decide (ceiling_reached (Qc_of_Z (CM._tlen s)) (CM._typecode s))) as [Hg|Hg];
    [by apply mirror_fix_guard|].
  destruct (decide (CM._tlen s = 0%Z \/ CM._tlen s = 1%Z)) as [Hn|Hn].
  - destruct (mirror_fix_zero_division s C a) as [-> ->]; (done || congruence).
  - rewrite (fix_ok s C a), (delay_fix_ok None (mirror s) C a a);
      try (done || (simpl; lia) || congruence).
    simpl. rewrite plain_cov_delay_cov; [done| |].
    + apply Qc_of_Z_neq0. lia.
    + apply (Qc_of_Z_neq _ 1). lia.
Qed.

(** C6: fed the same non-empty batches, the delayed accumulator constructed
    with [dt = 0] and the plain accumulator have the same outcome: when the
    plain [fix] returns [(cov, avg, n)], the delayed one returns
    [(cov, avg, avg, n)] (both means equal, same count, same covariance), and
    when one raises the other raises the same exception. *)
Theorem delay_zero_lag (typecode0 : option string) (bs : list ndarray) :
  Forall (fun x => (1 <= nrows (values x))%nat) bs ->
  fst (DCM.cycle None bs (DCM.__init__ 0 typecode0))
  = result_map twice_mean (fst (CM.cycle bs (CM.__init__ typecode0))).
Proof.
  intros Hbs.
  change (DCM.__init__ 0 typecode0) with (mirror (CM.__init__ typecode0)).
  assert (Hinv : (CM._cov_mtx (CM.__init__ typecode0) = None
                  /\ CM._avg (CM.__init__ typecode0) = None)
                 \/ (exists D, shaped D (CM.__init__ typecode0))) by (by left).
  revert Hinv. generalize (CM.__init__ typecode0) as s.
  induction Hbs as [|x bs Hx Hbs IH]; intros s Hinv.
  - unfold DCM.cycle, CM.cycle, bind; simpl. unfold ret. by apply mirror_fix.
  - unfold DCM.cycle, CM.cycle, bind in *; simpl. unfold bind.
    rewrite (mirror_update x s Hx).
    destruct (CM.update x s) as [[[]|e] s1] eqn:E; simpl; [|done].
    apply IH. right.
    destruct Hinv as [[HC _]|[D Hs]].
    + destruct (update_first x s HC) as (s1' & E1 & Hs1 & _).
      rewrite E in E1. injection E1 as <-. eauto.
    + destruct (decide (D = ncols (values x))) as [->|Hne].
      * destruct (update_shaped x s Hs) as (s1' & E1 & Hs1 & _).
        rewrite E in E1. injection E1 as <-. eauto.
      * destruct Hs as (C & a & HC & Ha & H1 & H2 & H3).
        rewrite (update_Some x s C a HC Ha), plain_step_mismatch in E; [done|].
        intros [? ?]; congruence.
Qed.

Lemma delay_zero_lag_witness :
  fst (DCM.cycle None [batch_123456 "d"] (DCM.__init__ 0 None))
  = Ok (mkMatrix 2 [[q 4; q 4]; [q 4; q 4]], [q 3; q 4], [q 3; q 4], q 3).
Proof.
  rewrite (delay_zero_lag None [batch_123456 "d"]).
  - by_compute.
  - repeat constructor.
Defined.

(** * Closed forms of whole accumulation phases *)

Lemma cross_app L1 L2 G1 G2 i j :
  length L1 = length G1 ->
  cross (L1 ++ L2) (G1 ++ G2) i j = cross L1 G1 i j + cross L2 G2 i j.
Proof.
  intros E. unfold cross. rewrite !map_app. apply dot_app. by rewrite !length_map.
Qed.

Lemma rowsum_app L1 L2 j : rowsum (L1 ++ L2) j = rowsum L1 j + rowsum L2 j.
Proof. unfold rowsum. rewrite map_app. apply vsum_app. Qed.

Lemma cross_nil i j : cross [] [] i j = 0.
Proof. done. Qed.

Lemma rowsum_nil j : rowsum [] j = 0.
Proof. done. Qed.

Lemma cross_sym L i j : cross L L i j = cross L L j i.
Proof.
  unfold cross, dot. f_equal. induction L as [|r L IH]; simpl; [done|].
  rewrite IH. f_equal. ring.
Qed.

Lemma plain_cov_tab D c f n :
  plain_cov (mtab D D c) (vtab D f) n
  = mtab D D (fun i j => c i j / (n - 1) - f i * f j / (n * (n - 1))).
Proof.
  unfold plain_cov. rewrite outerproduct_tab, !rows_map_tab, rows_zip_tab. done.
Qed.

Lemma sum_rows_tab D c x :
  ncols x = D ->
  sum_rows (mtab D D c) x = mtab D D (fun i j => c i j + cross (rows x) (rows x) i j).
Proof. intros <-. unfold sum_rows. rewrite rows_zip_tab. done. Qed.

Lemma sum0_add_tab D f x :
  ncols x = D ->
  zip_with Qcplus (vtab D f) (sum0 x) = vtab D (fun j => f j + rowsum (rows x) j).
Proof.
  intros <-. rewrite sum0_tab. unfold vtab. by rewrite zip_with_map_same.
Qed.

Section PlainClosedForm.
Import CovarianceMatrix.

Lemma update_all_tab D bs : forall c f s,
  _cov_mtx s = Some (mtab D D c) -> _avg s = Some (vtab D f) ->
  Forall (fun x => ncols (values x) = D) bs ->
  update_all bs s =
    (Ok tt, mk (_typecode s)
               (Some (mtab D D (fun i j => c i j + cross (all_rows bs) (all_rows bs) i j)))
               (Some (vtab D (fun j => f j + rowsum (all_rows bs) j)))
               (_tlen s + total_rows bs) (_input_dim s)).
Proof.
  induction bs as [|x bs IH]; intros c f s HC Ha Hbs; simpl.
  - unfold ret. destruct s as [tc cv av n dim]. simpl in *. subst.
    do 2 f_equal.
    + f_equal. apply mtab_ext. intros i j. rewrite cross_nil. ring.
    + f_equal. apply vtab_ext. intros j. rewrite rowsum_nil. ring.
    + lia.
  - inversion Hbs as [|? ? Hx Hbs']; subst.
    unfold bind. rewrite (update_Some x s _ _ HC Ha), plain_step_ok;
      [|by rewrite nrows_mtab|done|by rewrite vtab_length].
    rewrite sum_rows_tab, sum0_add_tab by done.
    erewrite IH; [|done|done|done]. simpl. do 2 f_equal.
    + f_equal. apply mtab_ext. intros i j.
      rewrite cross_app by done. ring.
    + f_equal. apply vtab_ext. intros j. rewrite rowsum_app. ring.
    + lia.
Qed.

Lemma update_all_first x bs s :
  _cov_mtx s = None ->
  update_all (x :: bs) s = update_all (x :: bs) (snd (_init_internals x s)).
Proof. intros HC. simpl. unfold bind. by rewrite update_None. Qed.

(** The state just before [fix], after the batches [bs] on an accumulator
    without buffers. *)
Lemma update_all_from_empty D x bs s :
  _cov_mtx s = None -> Forall (fun y => ncols (values y) = D) (x :: bs) ->
  update_all (x :: bs) s =
    (Ok tt, mk (settled_typecode (_typecode s) x)
               (Some (mtab D D (cross (all_rows (x :: bs)) (all_rows (x :: bs)))))
               (Some (vtab D (rowsum (all_rows (x :: bs)))))
               (_tlen s + total_rows (x :: bs)) (Some D)).
Proof.
  intros HC Hbs. pose proof Hbs as Hbs0. inversion Hbs0 as [|? ? Hx _]; subst.
  rewrite update_all_first by done.
  rewrite (update_all_tab (ncols (values x)) (x :: bs) (fun _ _ => 0) (fun _ => 0));
    [| by simpl; rewrite zeros2_tab | by simpl; rewrite zeros_tab | done].
  unfold _init_internals, settled_typecode. cbn [snd _typecode _tlen _input_dim].
  do 2 f_equal.
  - f_equal. apply mtab_ext. intros i j. ring.
  - f_equal. apply vtab_ext. intros j. ring.
Qed.
End PlainClosedForm.

Lemma nth_vtab j m g : (j < m)%nat -> nth j (vtab m g) 0 = g j.
Proof.
  intros Hj. unfold vtab.
  rewrite (nth_indep (map _ _) 0 (g 0%nat)) by (by rewrite length_map, length_seq).
  rewrite (map_nth g (seq 0 m) 0%nat j). by rewrite seq_nth.
Qed.

Lemma tr_mtab n m f : tr (mtab n m f) = mtab m n (fun i j => f j i).
Proof.
  unfold tr. rewrite nrows_mtab. unfold mtab, column. simpl. f_equal.
  apply map_ext_in. intros j Hj. apply in_seq in Hj.
  rewrite map_map. unfold vtab at 2.
  apply map_ext. intros i. apply nth_vtab. lia.
Qed.

(** What a returning [fix] returns, on buffers of one dimension. *)
Lemma plain_fix_Ok_value s C a r s' :
  CM._cov_mtx s = Some C -> CM._avg s = Some a ->
  nrows C = length a -> ncols C = length a ->
  CM.fix_ s = (Ok r, s') ->
  r = (plain_cov C a (Qc_of_Z (CM._tlen s)),
       map (fun e => e / Qc_of_Z (CM._tlen s)) a, Qc_of_Z (CM._tlen s))
  /\ ~ ceiling_reached (Qc_of_Z (CM._tlen s)) (CM._typecode s)
  /\ CM._tlen s <> 0%Z /\ CM._tlen s <> 1%Z.
Proof.
  intros HC Ha H1 H2 E.
  destruct (decide (ceiling_reached (Qc_of_Z (CM._tlen s)) (CM._typecode s))) as [Hg|Hg].
  { destruct (check_roundoff_raises s _ _ Hg) as (ty & _ & Eg).
    rewrite (fix_guard_raises s (MDPWarning (Qc_of_Z (CM._tlen s)) ty)) in E;
      [done|]. unfold scast. by rewrite Eg. }
  destruct (decide (CM._tlen s = 0%Z \/ CM._tlen s = 1%Z)) as [Hn|Hn].
  { destruct (mirror_fix_zero_division s C a HC Ha H1 H2 Hg Hn) as [_ Ez].
    rewrite E in Ez. done. }
  rewrite (fix_ok s C a) in E by (done || lia).
  injection E as <- _. repeat split; (done || lia).
Qed.

(** X1: the batches [bs] (one width [D], at least 2 rows in all, guard's
    ceiling not reached) fed to an accumulator without data, then [fix]: the
    mean returned is the column mean of all the rows, the covariance has
    entries [S2[i][j]/(n-1) - S[i]*S[j]/(n*(n-1))] where [S2] sums the
    products and [S] the entries over all the rows, and the count is the
    number of rows. *)
Theorem plain_fix_mean_cov (s : CM.t) (x : ndarray) (bs : list ndarray) (D : nat) :
  CM._cov_mtx s = None -> CM._tlen s = 0%Z ->
  Forall (fun y => ncols (values y) = D) (x :: bs) ->
  (2 <= total_rows (x :: bs))%Z ->
  ~ ceiling_reached (Qc_of_Z (total_rows (x :: bs))) (settled_typecode (CM._typecode s) x) ->
  let X := all_rows (x :: bs) in
  let n := Qc_of_Z (total_rows (x :: bs)) in
  fst (CM.cycle (x :: bs) s)
  = Ok (mtab D D (fun i j => cross X X i j / (n - 1)
                             - rowsum X i * rowsum X j / (n * (n - 1))),
        vtab D (fun j => rowsum X j / n), n).
Proof.
  intros HC Hn Hbs H2 Hg X n.
  unfold CM.cycle, bind. rewrite (update_all_from_empty D) by done.
  rewrite Hn, Z.add_0_l.
  subst X n.
  erewrite fix_ok; cbn [CM._cov_mtx CM._avg CM._tlen CM._typecode fst]; try done.
  - rewrite plain_cov_tab. unfold vtab. by rewrite map_map.
  - by rewrite nrows_mtab, vtab_length.
  - by rewrite vtab_length.
  - lia.
  - lia.
Qed.

Lemma plain_fix_mean_cov_witness :
  exists cov, fst (CM.cycle [two_rows; two_rows] (CM.__init__ None))
              = Ok (cov, [q 2; q 3], q 4).
Proof.
  eexists.
  rewrite (plain_fix_mean_cov (CM.__init__ None) two_rows [two_rows] 2);
    try done.
  - apply f_equal. apply f_equal2; [apply f_equal2; [reflexivity|by_compute]|by_compute].
  - repeat constructor.
  - apply small_count_passes. done.
Defined.

(** X2: whenever [fix] returns after batches of one width fed to an
    accumulator without data, the covariance it returns is a [D x D]
    symmetric matrix. *)
Theorem plain_cov_symmetric (s : CM.t) (bs : list ndarray) (D : nat) cov avg n s' :
  plain_empty s ->
  Forall (fun y => ncols (values y) = D) bs ->
  CM.cycle bs s = (Ok (cov, avg, n), s') ->
  tr cov = cov /\ nrows cov = D /\ ncols cov = D.
Proof.
  intros (HC & Ha & Hn) Hbs E.
  destruct bs as [|x bs].
  { destruct (fix_None_raises s Ha) as [e He].
    unfold CM.cycle, bind in E; simpl in E. unfold ret in E. rewrite E in He. done. }
  unfold CM.cycle, bind in E. rewrite (update_all_from_empty D) in E by done.
  apply plain_fix_Ok_value
    with (C := mtab D D (cross (all_rows (x :: bs)) (all_rows (x :: bs))))
         (a := vtab D (rowsum (all_rows (x :: bs)))) in E; simpl; try done.
  - destruct E as [E _]. injection E as -> _ _. rewrite plain_cov_tab.
    rewrite tr_mtab, nrows_mtab. repeat split.
    apply mtab_ext. intros i j. rewrite (cross_sym _ j i). f_equal. f_equal. ring.
  - by rewrite nrows_mtab, vtab_length.
  - by rewrite vtab_length.
Qed.

Lemma plain_cov_symmetric_witness :
  tr (mkMatrix 2 [[q 4; q 4]; [q 4; q 4]]) = mkMatrix 2 [[q 4; q 4]; [q 4; q 4]].
Proof.
  refine (proj1 (plain_cov_symmetric (CM.__init__ None) [batch_123456 "d"] 2
                   _ [q 3; q 4] (q 3) (CM.mk (Some "d") None None 0 (Some 2%nat)) _ _ _)).
  - done.
  - repeat constructor.
  - by_compute.
Defined.

(** ** Slices for a lag within the batch *)

Lemma slice_index_mid n (i : Z) :
  (0 <= i <= Z.of_nat n)%Z -> slice_index n i = Z.to_nat i.
Proof.
  intros H. unfold slice_index. destruct (Z.ltb_spec i 0); lia.
Qed.

Section Slices.
Variables (x : matrix) (dt : Z).
Hypothesis Hdt : (0 <= dt <= Z.of_nat (nrows x))%Z.

Lemma lead_rows_take : lead_rows dt x = take (nrows x - Z.to_nat dt) (rows x).
Proof.
  unfold lead_rows, row_slice, py_slice, nrows in *. simpl.
  rewrite slice_index_mid by lia. rewrite Nat.sub_0_r. f_equal. lia.
Qed.

Lemma lag_rows_drop : lag_rows dt x = drop (Z.to_nat dt) (rows x).
Proof.
  unfold lag_rows, row_slice, py_slice, nrows in *. simpl.
  rewrite !slice_index_mid by lia. rewrite Nat2Z.id.
  apply firstn_all2. rewrite length_drop. lia.
Qed.

Lemma last_rows_drop :
  rows (row_slice (Some (Z.of_nat (nrows x) - dt)%Z) None x)
  = drop (nrows x - Z.to_nat dt) (rows x).
Proof.
  unfold row_slice, py_slice, nrows in *. simpl.
  rewrite slice_index_mid by lia.
  replace (Z.to_nat (Z.of_nat (length (rows x)) - dt)) with (length (rows x) - Z.to_nat dt)%nat
    by lia.
  apply firstn_all2. rewrite length_drop. lia.
Qed.

Lemma first_rows_take :
  rows (row_slice None (Some dt) x) = take (Z.to_nat dt) (rows x).
Proof.
  unfold row_slice, py_slice, nrows in *. simpl.
  rewrite slice_index_mid by lia. by rewrite Nat.sub_0_r.
Qed.

Lemma lead_rows_length : length (lead_rows dt x) = (nrows x - Z.to_nat dt)%nat.
Proof. rewrite lead_rows_take, length_take. unfold nrows. lia. Qed.

Lemma lag_rows_length : length (lag_rows dt x) = (nrows x - Z.to_nat dt)%nat.
Proof. rewrite lag_rows_drop, length_drop. done. Qed.

(** [mult(tr(x[:tlen-dt,:]), x[dt:tlen,:])] pairs row [t] with row [t+dt]. *)
Lemma mult_lead_lag :
  mult (tr (row_slice None (Some (Z.of_nat (nrows x) - dt)%Z) x))
       (row_slice (Some dt) (Some (Z.of_nat (nrows x))) x)
  = Ok (mtab (ncols x) (ncols x) (cross (lead_rows dt x) (lag_rows dt x))).
Proof.
  rewrite mult_tr; [done|].
  change (length (lead_rows dt x) = length (lag_rows dt x)).
  by rewrite lead_rows_length, lag_rows_length.
Qed.

(** [totalsum - sum(x[tlen-dt:,:], 0)] is the sum of the first [tlen-dt] rows. *)
Lemma totalsum_minus_last :
  vzip Qcminus (sum0 x) (sum0 (row_slice (Some (Z.of_nat (nrows x) - dt)%Z) None x))
  = Ok (vtab (ncols x) (rowsum (lead_rows dt x))).
Proof.
  rewrite !sum0_tab. simpl. rewrite vzip_tab. f_equal. apply vtab_ext. intros j.
  change (rowsum (rows x) j
          - rowsum (rows (row_slice (Some (Z.of_nat (nrows x) - dt)%Z) None x)) j
          = rowsum (lead_rows dt x) j).
  rewrite last_rows_drop, lead_rows_take.
  rewrite <- (take_drop (nrows x - Z.to_nat dt) (rows x)) at 1.
  rewrite rowsum_app. ring.
Qed.

(** [totalsum - sum(x[:dt,:], 0)] is the sum of the last [tlen-dt] rows. *)
Lemma totalsum_minus_first :
  vzip Qcminus (sum0 x) (sum0 (row_slice None (Some dt) x))
  = Ok (vtab (ncols x) (rowsum (lag_rows dt x))).
Proof.
  rewrite !sum0_tab. simpl. rewrite vzip_tab. f_equal. apply vtab_ext. intros j.
  change (rowsum (rows x) j - rowsum (rows (row_slice None (Some dt) x)) j
          = rowsum (lag_rows dt x) j).
  rewrite first_rows_take, lag_rows_drop.
  rewrite <- (take_drop (Z.to_nat dt) (rows x)) at 1.
  rewrite rowsum_app. ring.
Qed.
End Slices.

(** ** The delayed accumulator in closed form *)

Section DelayClosedForm.
Import DelayCovarianceMatrix.

Lemma delay_update_step (x : ndarray) (s : t) (D : nat) c f g :
  _cov_mtx s = Some (mtab D D c) -> _avg s = Some (vtab D f) ->
  _avg_dt s = Some (vtab D g) ->
  ncols (values x) = D ->
  (0 <= _dt s)%Z -> (_dt s + 1 <= Z.of_nat (nrows (values x)))%Z ->
  let L := lead_rows (_dt s) (values x) in
  let G := lag_rows (_dt s) (values x) in
  update x s =
    (Ok tt, mk (_dt s) (_typecode s)
               (Some (mtab D D (fun i j => c i j + cross L G i j)))
               (Some (vtab D (fun j => f j + rowsum L j)))
               (Some (vtab D (fun j => g j + rowsum G j)))
               (_tlen s + (Z.of_nat (nrows (values x)) - _dt s)) (_input_dim s)).
Proof.
  intros HC Ha Hb Hx H0 Hn L G. subst L G.
  unfold update, refcast. monad_unfold. rewrite HC. simpl.
  rewrite (proj2 (Z.ltb_ge _ _)) by lia. simpl.
  rewrite mult_lead_lag, totalsum_minus_last, totalsum_minus_first by lia.
  simpl. rewrite HC, Hx. rewrite mzip_tab. simpl.
  rewrite Ha, vzip_tab. simpl. rewrite Hb, vzip_tab. simpl. done.
Qed.

(** X3: one [update] with a batch of width [D] and at least [dt+1] rows
    ([dt >= 0]) on buffers that are tables of dimension [D]: the cross sums
    grow by the products of row [t] with row [t+dt], the leading sums by the
    first [tlen-dt] rows, the lagged sums by the last [tlen-dt] rows, the
    count by [tlen-dt]; lag, typecode and dimension stay. *)
Theorem delay_update_tab (x : ndarray) (s : t) (D : nat) c f g :
  _cov_mtx s = Some (mtab D D c) -> _avg s = Some (vtab D f) ->
  _avg_dt s = Some (vtab D g) ->
  ncols (values x) = D ->
  (0 <= _dt s)%Z -> (_dt s + 1 <= Z.of_nat (nrows (values x)))%Z ->
  let L := lead_rows (_dt s) (values x) in
  let G := lag_rows (_dt s) (values x) in
  update x s =
    (Ok tt, mk (_dt s) (_typecode s)
               (Some (mtab D D (fun i j => c i j + cross L G i j)))
               (Some (vtab D (fun j => f j + rowsum L j)))
               (Some (vtab D (fun j => g j + rowsum G j)))
               (_tlen s + (Z.of_nat (nrows (values x)) - _dt s)) (_input_dim s)).
Proof. apply delay_update_step. Qed.

Lemma delay_update_tab_witness :
  DCM.update two_rows
    (DCM.mk 1 (Some "d") (Some (mtab 2 2 (fun _ _ => 0))) (Some (vtab 2 (fun _ => 0)))
            (Some (vtab 2 (fun _ => 0))) 0 (Some 2%nat))
  = (Ok tt, DCM.mk 1 (Some "d") (Some (mkMatrix 2 [[q 3; q 4]; [q 6; q 8]]))
                   (Some [q 1; q 2]) (Some [q 3; q 4]) 1 (Some 2%nat)).
Proof.
  rewrite (delay_update_tab two_rows _ 2 (fun _ _ => 0) (fun _ => 0) (fun _ => 0));
    try done.
  by_compute.
Defined.

Lemma delay_update_all_tab D bs : forall c f g s,
  _cov_mtx s = Some (mtab D D c) -> _avg s = Some (vtab D f) ->
  _avg_dt s = Some (vtab D g) -> (0 <= _dt s)%Z ->
  Forall (fun x => ncols (values x) = D
                   /\ (_dt s + 1 <= Z.of_nat (nrows (values x)))%Z) bs ->
  update_all bs s =
    (Ok tt, mk (_dt s) (_typecode s)
               (Some (mtab D D (fun i j =>
                        c i j + cross (all_lead (_dt s) bs) (all_lag (_dt s) bs) i j)))
               (Some (vtab D (fun j => f j + rowsum (all_lead (_dt s) bs) j)))
               (Some (vtab D (fun j => g j + rowsum (all_lag (_dt s) bs) j)))
               (_tlen s + pair_count (_dt s) bs) (_input_dim s)).
Proof.
  induction bs as [|x bs IH]; intros c f g s HC Ha Hb H0 Hbs; simpl.
  - unfold ret. destruct s as [dt tc cv av bv n dim]. simpl in *. subst.
    do 2 f_equal.
    + f_equal. apply mtab_ext. intros i j. rewrite cross_nil. ring.
    + f_equal. apply vtab_ext. intros j. rewrite rowsum_nil. ring.
    + f_equal. apply vtab_ext. intros j. rewrite rowsum_nil. ring.
    + lia.
  - inversion Hbs as [|? ? [Hx Hn] Hbs']; subst.
    unfold bind. rewrite (delay_update_step x s _ c f g) by done.
    erewrite IH; [|done|done|done|done|done]. simpl. do 2 f_equal.
    + f_equal. apply mtab_ext. intros i j.
      rewrite cross_app; [ring|].
      rewrite lead_rows_length, lag_rows_length by lia. done.
    + f_equal. apply vtab_ext. intros j. rewrite rowsum_app. ring.
    + f_equal. apply vtab_ext. intros j. rewrite rowsum_app. ring.
    + lia.
Qed.

Lemma delay_update_all_from_empty D x bs s :
  _cov_mtx s = None -> (0 <= _dt s)%Z ->
  Forall (fun y => ncols (values y) = D
                   /\ (_dt s + 1 <= Z.of_nat (nrows (values y)))%Z) (x :: bs) ->
  update_all (x :: bs) s =
    (Ok tt, mk (_dt s) (settled_typecode (_typecode s) x)
               (Some (mtab D D (cross (all_lead (_dt s) (x :: bs))
                                      (all_lag (_dt s) (x :: bs)))))
               (Some (vtab D (rowsum (all_lead (_dt s) (x :: bs)))))
               (Some (vtab D (rowsum (all_lag (_dt s) (x :: bs)))))
               (_tlen s + pair_count (_dt s) (x :: bs)) (Some D)).
Proof.
  intros HC H0 Hbs. pose proof Hbs as Hbs0. inversion Hbs0 as [|? ? [Hx _] _]; subst.
  assert (E : update_all (x :: bs) s = update_all (x :: bs) (snd (_init_internals x s))).
  { simpl. unfold bind. by rewrite delay_update_None. }
  rewrite E.
  rewrite (delay_update_all_tab (ncols (values x)) (x :: bs)
             (fun _ _ => 0) (fun _ => 0) (fun _ => 0));
    [| by simpl; rewrite zeros2_tab | by simpl; rewrite zeros_tab
     | by simpl; rewrite zeros_tab | done | done].
  unfold _init_internals, settled_typecode.
  cbn [snd _dt _typecode _tlen _input_dim].
  do 2 f_equal.
  - f_equal. apply mtab_ext. intros i j. ring.
  - f_equal. apply vtab_ext. intros j. ring.
  - f_equal. apply vtab_ext. intros j. ring.
Qed.
End DelayClosedForm.

Lemma pair_count_total dt bs :
  pair_count dt bs = (total_rows bs - dt * Z.of_nat (length bs))%Z.
Proof. induction bs as [|x bs IH]; simpl; [lia|]. rewrite IH. lia. Qed.

Lemma delay_update_all_count bs : forall s s',
  is_Some (DCM._cov_mtx s) -> DCM.update_all bs s = (Ok tt, s') ->
  DCM._tlen s' = (DCM._tlen s + pair_count (DCM._dt s) bs)%Z.
Proof.
  induction bs as [|x bs IH]; intros s s' HC; simpl.
  - unfold ret. intros [= <-]. lia.
  - unfold bind. destruct (DCM.update x s) as [[[]|e] s1] eqn:E; [|done].
    intros H. apply delay_update_Ok_frame in E as (E1 & _ & _ & E2 & E3); [|done].
    apply IH in H; [|done]. rewrite H, E1, E2. lia.
Qed.

(** X4: whenever [fix] returns after the batches [bs] fed to a delayed
    accumulator without data, the count it returns is the sum of
    [tlen - dt] over the batches, that is the number of rows minus [dt]
    times the number of batches: the pairs that would straddle two batches
    are not counted. *)
Theorem delay_fix_count A (s : DCM.t) (bs : list ndarray) r s' :
  delay_empty s -> DCM.cycle A bs s = (Ok r, s') ->
  snd r = Qc_of_Z (total_rows bs - DCM._dt s * Z.of_nat (length bs)).
Proof.
  intros (HC & Ha & _ & Hn) E. rewrite <- pair_count_total.
  destruct bs as [|x bs].
  { destruct (delay_fix_None_raises A s Ha) as [e He].
    unfold DCM.cycle, bind in E; simpl in E. unfold ret in E. rewrite E in He. done. }
  unfold DCM.cycle, bind in E. simpl in E. unfold bind in E.
  destruct (DCM.update x s) as [[[]|e] s1] eqn:E1; [|done].
  destruct (DCM.update_all bs s1) as [[[]|e] s2] eqn:E2; [|done].
  apply delay_fix_Ok_inv in E as [-> _].
  rewrite delay_update_None in E1 by done.
  apply delay_update_Ok_frame in E1 as (D1 & _ & _ & T1 & C1); [|simpl; eauto].
  apply delay_update_all_count in E2; [|done].
  simpl in *. rewrite E2, T1, D1, Hn. f_equal.
Qed.

Lemma delay_fix_count_witness :
  snd (mkMatrix 2 [[q 2; q 2]; [q 2; q 2]], [q 2; q 3], [q 4; q 5], q 2) = Qc_of_Z (3 - 1 * 1).
Proof.
  apply (delay_fix_count None (DCM.__init__ 1 None) [batch_123456 "d"] _
           (DCM.mk 1 (Some "d") None None None 0 (Some 2%nat))).
  - done.
  - by_compute.
Defined.

(** X5: the batches [x :: bs] (one width [D], each of at least [dt+1] rows,
    [dt >= 0]) fed to a delayed accumulator without data, then [fix()], when
    at least 2 pairs were formed and the guard's ceiling is not reached:
    with [L] the leading rows ([x[:tlen-dt]] of each batch) and [G] the rows
    [dt] later ([x[dt:]] of each batch), the means returned are the column
    means of [L] and of [G], the covariance has entries
    [(sum_t L[t][i]*G[t][j] - sum_t L[t][i] * sum_t G[t][j] / n) / (n-1)], and
    the count [n] is the number of pairs. *)
Theorem delay_fix_mean_cov (s : DCM.t) (x : ndarray) (bs : list ndarray) (D : nat) :
  DCM._cov_mtx s = None -> DCM._tlen s = 0%Z -> (0 <= DCM._dt s)%Z ->
  Forall (fun y => ncols (values y) = D
                   /\ (DCM._dt s + 1 <= Z.of_nat (nrows (values y)))%Z) (x :: bs) ->
  (2 <= pair_count (DCM._dt s) (x :: bs))%Z ->
  ~ ceiling_reached (Qc_of_Z (pair_count (DCM._dt s) (x :: bs)))
                    (settled_typecode (DCM._typecode s) x) ->
  let L := all_lead (DCM._dt s) (x :: bs) in
  let G := all_lag (DCM._dt s) (x :: bs) in
  let n := Qc_of_Z (pair_count (DCM._dt s) (x :: bs)) in
  fst (DCM.cycle None (x :: bs) s)
  = Ok (mtab D D (fun i j => (cross L G i j - rowsum L i * rowsum G j / n) / (n - 1)),
        vtab D (fun j => rowsum L j / n), vtab D (fun j => rowsum G j / n), n).
Proof.
  intros HC Hn H0 Hbs H2 Hg L G n. subst L G n.
  unfold DCM.cycle, bind. rewrite (delay_update_all_from_empty D) by done.
  rewrite Hn, Z.add_0_l.
  erewrite delay_fix_ok;
    cbn [DCM._cov_mtx DCM._avg DCM._avg_dt DCM._tlen DCM._typecode fst]; try done.
  - unfold transformed. rewrite delay_cov_tab. unfold vtab. by rewrite !map_map.
  - by rewrite nrows_mtab, vtab_length.
  - by rewrite vtab_length.
  - lia.
  - lia.
Qed.

Lemma delay_fix_mean_cov_witness :
  exists cov, fst (DCM.cycle None [batch_123456 "d"; two_rows] (DCM.__init__ 1 None))
              = Ok (cov, [q 5 / q 3; q 8 / q 3], [q 11 / q 3; q 14 / q 3], q 3).
Proof.
  eexists.
  assert (HF : Forall (fun y => ncols (values y) = 2%nat
                 /\ (DCM._dt (DCM.__init__ 1 None) + 1 <= Z.of_nat (nrows (values y)))%Z)
                [batch_123456 "d"; two_rows])
    by (repeat (apply List.Forall_cons; [split; [reflexivity|by vm_compute]|]);
        apply List.Forall_nil).
  assert (Hg : ~ ceiling_reached
                 (Qc_of_Z (pair_count (DCM._dt (DCM.__init__ 1 None))
                                      [batch_123456 "d"; two_rows]))
                 (settled_typecode (DCM._typecode (DCM.__init__ 1 None)) (batch_123456 "d")))
    by (apply small_count_passes; done).
  rewrite (delay_fix_mean_cov (DCM.__init__ 1 None) (batch_123456 "d") [two_rows] 2
             eq_refl eq_refl ltac:(done) HF ltac:(done) Hg).
  apply f_equal.
  apply f_equal2; [apply f_equal2; [apply f_equal2; [reflexivity|by_compute]|by_compute]
                  |by_compute].
Defined.

(** * Typecode, saturation and calls out of order *)

(** X6: the typecode is settled by the first [update] of an accumulator
    without buffers: the constructor's typecode when it is a non-empty
    string, the typecode of that first batch otherwise; later batches, of
    whatever typecode, and [fix] leave it alone.  For both classes. *)
Theorem typecode_settles :
  (forall (s : CM.t) x bs s',
      CM._cov_mtx s = None -> CM.update_all (x :: bs) s = (Ok tt, s') ->
      CM._typecode s' = if truthy (CM._typecode s) then CM._typecode s
                        else Some (typecode x))
  /\ (forall (s : CM.t) r s', CM.fix_ s = (Ok r, s') -> CM._typecode s' = CM._typecode s)
  /\ (forall (s : DCM.t) x bs s',
      DCM._cov_mtx s = None -> DCM.update_all (x :: bs) s = (Ok tt, s') ->
      DCM._typecode s' = if truthy (DCM._typecode s) then DCM._typecode s
                         else Some (typecode x))
  /\ (forall A (s : DCM.t) r s',
      DCM.fix_ A s = (Ok r, s') -> DCM._typecode s' = DCM._typecode s).
Proof.
  split; [|split; [|split]].
  - intros s x bs s' HC. simpl. unfold bind.
    destruct (CM.update x s) as [[[]|e] s1] eqn:E1; [|done]. intros E2.
    destruct (update_first x s HC) as (s1' & E1' & _ & Et & _).
    rewrite E1 in E1'. injection E1' as <-.
    destruct (update_Ok_tlen x s s1 E1) as [_ HC1].
    destruct (update_all_Ok bs s1 s' E2) as [_ H]. destruct (H HC1) as [-> _].
    exact Et.
  - intros s r s' E. apply fix_Ok_inv in E as [_ ->]. done.
  - intros s x bs s' HC. simpl. unfold bind.
    destruct (DCM.update x s) as [[[]|e] s1] eqn:E1; [|done]. intros E2.
    destruct (delay_update_first_frame x s s1 HC E1) as (_ & Et & HC1).
    destruct (delay_update_all_frame bs s1 s' HC1 E2) as [_ ->]. exact Et.
  - intros A s r s' E. apply delay_fix_Ok_inv in E as [_ ->]. done.
Qed.

Lemma typecode_settles_witness :
  CM._typecode (snd (CM.update_all [batch_123456 "f"; batch_123456 "d"] (CM.__init__ None)))
  = Some "f"
  /\ CM._typecode (snd (CM.update_all [batch_123456 "f"] (CM.__init__ (Some "d"))))
     = Some "d".
Proof.
  destruct typecode_settles as (H & _). split.
  - destruct (CM.update_all [batch_123456 "f"; batch_123456 "d"] (CM.__init__ None))
      as [[[]|e] s'] eqn:E; [|vm_compute in E; discriminate E].
    exact (H (CM.__init__ None) _ _ s' eq_refl E).
  - destruct (CM.update_all [batch_123456 "f"] (CM.__init__ (Some "d")))
      as [[[]|e] s'] eqn:E; [|vm_compute in E; discriminate E].
    exact (H (CM.__init__ (Some "d")) _ _ s' eq_refl E).
Defined.

Lemma ceiling_reached_mono (n m : Z) type :
  (n <= m)%Z -> ceiling_reached (Qc_of_Z n) type -> ceiling_reached (Qc_of_Z m) type.
Proof.
  intros Hnm [[-> H]|[-> H]]; rewrite int_of_Z in H; [left|right];
    (split; [done|]); rewrite int_of_Z; lia.
Qed.

Lemma total_rows_nonneg bs : (0 <= total_rows bs)%Z.
Proof. induction bs as [|x bs IH]; simpl; lia. Qed.

Lemma delay_update_all_grows bs : forall s s',
  is_Some (DCM._cov_mtx s) -> DCM.update_all bs s = (Ok tt, s') ->
  (DCM._tlen s + Z.of_nat (length bs) <= DCM._tlen s')%Z
  /\ DCM._typecode s' = DCM._typecode s.
Proof.
  induction bs as [|x bs IH]; intros s s' HC; simpl.
  - unfold ret. intros [= <-]. split; [lia|done].
  - unfold bind. destruct (DCM.update x s) as [[[]|e] s1] eqn:E; [|done]. intros H.
    assert (Hn : (DCM._dt s + 1 <= Z.of_nat (nrows (values x)))%Z).
    { destruct (Z.lt_ge_cases (Z.of_nat (nrows (values x))) (DCM._dt s + 1)) as [Hlt|]; [|done].
      rewrite delay_update_short in E by done. done. }
    apply delay_update_Ok_frame in E as (_ & Et & _ & En & HC1); [|done].
    apply IH in H as [H1 H2]; [|done]. split; [lia|congruence].
Qed.

(** X7: an accumulator whose count has reached the guard's ceiling stays
    saturated: after any further batches that [update] accepts, [fix] still
    raises the precision warning and changes nothing.  Only a new
    accumulator gets past it.  For both classes. *)
Theorem saturation_persists :
  (forall (s : CM.t) bs s',
      is_Some (CM._cov_mtx s) ->
      ceiling_reached (Qc_of_Z (CM._tlen s)) (CM._typecode s) ->
      CM.update_all bs s = (Ok tt, s') ->
      exists ty, CM.fix_ s' = (Raise (MDPWarning (Qc_of_Z (CM._tlen s')) ty), s'))
  /\ (forall A (s : DCM.t) bs s',
      is_Some (DCM._cov_mtx s) ->
      ceiling_reached (Qc_of_Z (DCM._tlen s)) (DCM._typecode s) ->
      DCM.update_all bs s = (Ok tt, s') ->
      exists ty, DCM.fix_ A s' = (Raise (MDPWarning (Qc_of_Z (DCM._tlen s')) ty), s')).
Proof.
  split.
  - intros s bs s' HC Hg E.
    destruct (update_all_Ok bs s s' E) as [En H]. destruct (H HC) as [Et _].
    assert (Hg' : ceiling_reached (Qc_of_Z (CM._tlen s')) (CM._typecode s')).
    { rewrite Et. apply (ceiling_reached_mono (CM._tlen s)); [|done].
      pose proof (total_rows_nonneg bs). lia. }
    destruct (check_roundoff_raises s' _ _ Hg') as (ty & _ & Eg).
    exists ty. apply fix_guard_raises. unfold scast. by rewrite Eg.
  - intros A s bs s' HC Hg E.
    destruct (delay_update_all_grows bs s s' HC E) as [En Et].
    assert (Hg' : ceiling_reached (Qc_of_Z (DCM._tlen s')) (DCM._typecode s')).
    { rewrite Et. apply (ceiling_reached_mono (DCM._tlen s)); [|done]. lia. }
    destruct (check_roundoff_raises s' _ _ Hg') as (ty & _ & Eg).
    exists ty. apply delay_fix_guard_raises. unfold scast. by rewrite Eg.
Qed.

Lemma saturation_persists_witness :
  exists ty s', CM.update_all [mkNdarray "f" (mkMatrix 1 [[q 1]; [q 2]])] saturated_plain
                = (Ok tt, s')
                /\ CM.fix_ s' = (Raise (MDPWarning (Qc_of_Z (CM._tlen s')) ty), s').
Proof.
  destruct saturation_persists as [H _].
  destruct (CM.update_all [mkNdarray "f" (mkMatrix 1 [[q 1]; [q 2]])] saturated_plain)
    as [[[]|e] s'] eqn:E; [|vm_compute in E; discriminate E].
  assert (HC : is_Some (CM._cov_mtx saturated_plain)) by (simpl; eauto).
  destruct (H saturated_plain _ s' HC saturated_plain_reached E) as [ty Hty].
  exists ty, s'. done.
Defined.

Lemma zero_count_passes type : ~ ceiling_reached (Qc_of_Z 0) type.
Proof. apply small_count_passes. done. Qed.

(** X8: [fix] on an accumulator that holds no data (just constructed, or
    just after a [fix]) raises and leaves the accumulator as it was; so a
    second [fix] in a row never returns.  For both classes. *)
Theorem fix_without_data :
  (forall s : CM.t, plain_empty s -> exists e, CM.fix_ s = (Raise e, s))
  /\ (forall A (s : DCM.t), delay_empty s -> exists e, DCM.fix_ A s = (Raise e, s))
  /\ (forall (s : CM.t) r s',
        CM.fix_ s = (Ok r, s') -> exists e, CM.fix_ s' = (Raise e, s'))
  /\ (forall A A' (s : DCM.t) r s',
        DCM.fix_ A s = (Ok r, s') -> exists e, DCM.fix_ A' s' = (Raise e, s')).
Proof.
  assert (Hp : forall s : CM.t, plain_empty s -> exists e, CM.fix_ s = (Raise e, s)).
  { intros s (_ & Ha & Hn). exists TypeError.
    unfold CM.fix_, scast. monad_unfold.
    rewrite (check_roundoff_passes s); [|rewrite Hn; apply zero_count_passes].
    simpl. rewrite Ha. done. }
  assert (Hd : forall A (s : DCM.t), delay_empty s -> exists e, DCM.fix_ A s = (Raise e, s)).
  { intros A s (_ & Ha & _ & Hn). exists TypeError.
    unfold DCM.fix_, scast. monad_unfold.
    rewrite (check_roundoff_passes s); [|rewrite Hn; apply zero_count_passes].
    simpl. rewrite Ha. done. }
  split; [done|]. split; [done|]. split.
  - intros s r s' E. apply fix_Ok_inv in E as [_ ->]. by apply Hp.
  - intros A A' s r s' E. apply delay_fix_Ok_inv in E as [_ ->]. by apply Hd.
Qed.

Lemma fix_without_data_witness :
  (exists e, CM.fix_ (CM.__init__ (Some "d")) = (Raise e, CM.__init__ (Some "d")))
  /\ (exists e, DCM.fix_ None (DCM.__init__ 2 None) = (Raise e, DCM.__init__ 2 None)).
Proof.
  destruct fix_without_data as (Hp & Hd & _). split.
  - by apply Hp.
  - by apply Hd.
Defined.

(** X9: a batch with no rows is accepted by the plain accumulator and
    changes nothing in buffers of its width, the count included. *)
Theorem plain_update_no_rows (tc : string) (D : nat) (s : CM.t) C a :
  CM._cov_mtx s = Some C -> CM._avg s = Some a ->
  rectangular C -> nrows C = D -> ncols C = D -> length a = D ->
  CM.update (no_rows tc D) s = (Ok tt, s).
Proof.
  intros HC Ha HR H1 H2 H3.
  assert (EC : C = mtab D D (entry C)).
  { rewrite <- H1 at 1. rewrite <- H2. by apply rectangular_tab. }
  assert (Ea : a = vtab D (fun i => nth i a 0)) by (rewrite <- H3; apply vec_tab).
  rewrite (update_Some _ s C a HC Ha), plain_step_ok by done.
  destruct s as [ty cv av n dim]. simpl in *. subst cv av.
  do 2 f_equal.
  - f_equal. rewrite EC. rewrite sum_rows_tab by done.
    apply mtab_ext. intros i j. simpl. rewrite cross_nil. ring.
  - f_equal. rewrite Ea. rewrite sum0_add_tab by done.
    apply vtab_ext. intros j. simpl. rewrite rowsum_nil. ring.
  - unfold nrows. simpl. lia.
Qed.

Lemma plain_update_no_rows_witness :
  let s := snd (CM.update (batch_123456 "d") (CM.__init__ None)) in
  CM.update (no_rows "d" 2) s = (Ok tt, s).
Proof.
  intros s.
  apply (plain_update_no_rows "d" 2 s (mkMatrix 2 [[q 35; q 44]; [q 44; q 56]]) [q 9; q 12]);
    try done.
  - by_compute.
  - by_compute.
  - repeat constructor.
Defined.

(** * A negative lag *)

Section NegativeLag.
Variables (x : matrix) (dt : Z).
Hypothesis Hdt : (dt < 0)%Z.
Hypothesis Hn : (Z.of_nat (nrows x) <= - dt)%Z.

Lemma slice_index_over n (i : Z) : (Z.of_nat n <= i)%Z -> slice_index n i = n.
Proof. intros H. unfold slice_index. destruct (Z.ltb_spec i 0); lia. Qed.

Lemma slice_index_under n (i : Z) : (i + Z.of_nat n <= 0)%Z -> (i < 0)%Z -> slice_index n i = 0%nat.
Proof. intros H H0. unfold slice_index. destruct (Z.ltb_spec i 0); lia. Qed.

Lemma neg_lead_all : row_slice None (Some (Z.of_nat (nrows x) - dt)%Z) x = x.
Proof.
  destruct x as [m rs]. unfold row_slice, py_slice, nrows in *; simpl in *.
  rewrite slice_index_over by lia. rewrite Nat.sub_0_r. by rewrite firstn_all.
Qed.

Lemma neg_lag_all : row_slice (Some dt) (Some (Z.of_nat (nrows x))) x = x.
Proof.
  destruct x as [m rs]. unfold row_slice, py_slice, nrows in *; simpl in *.
  rewrite (slice_index_under _ dt), slice_index_len by lia.
  rewrite Nat.sub_0_r. simpl. by rewrite firstn_all.
Qed.

Lemma neg_last_none :
  row_slice (Some (Z.of_nat (nrows x) - dt)%Z) None x = mkMatrix (ncols x) [].
Proof.
  destruct x as [m rs]. unfold row_slice, py_slice, nrows in *; simpl in *.
  rewrite slice_index_over by lia. by rewrite Nat.sub_diag.
Qed.

Lemma neg_first_none : row_slice None (Some dt) x = mkMatrix (ncols x) [].
Proof.
  destruct x as [m rs]. unfold row_slice, py_slice, nrows in *; simpl in *.
  rewrite (slice_index_under _ dt) by lia. done.
Qed.
End NegativeLag.

(** X10: the constructor takes a negative [dt] as it is, and [update] then
    never rejects a batch for its length.  With [dt < 0] and a batch of at
    most [-dt] rows, both slices [x[:tlen-dt]] and [x[dt:tlen]] are the whole
    batch: the cross sums grow by [tr(x)·x], both running sums by the column
    sums, and the count by [tlen - dt], which is more than the number of
    rows. *)
Theorem delay_negative_lag (x : ndarray) (s : DCM.t) (D : nat) c f g :
  DCM._cov_mtx s = Some (mtab D D c) -> DCM._avg s = Some (vtab D f) ->
  DCM._avg_dt s = Some (vtab D g) ->
  ncols (values x) = D ->
  (DCM._dt s < 0)%Z -> (Z.of_nat (nrows (values x)) <= - DCM._dt s)%Z ->
  let R := rows (values x) in
  DCM.update x s =
    (Ok tt, DCM.mk (DCM._dt s) (DCM._typecode s)
               (Some (mtab D D (fun i j => c i j + cross R R i j)))
               (Some (vtab D (fun j => f j + rowsum R j)))
               (Some (vtab D (fun j => g j + rowsum R j)))
               (DCM._tlen s + (Z.of_nat (nrows (values x)) - DCM._dt s)) (DCM._input_dim s))
  /\ (Z.of_nat (nrows (values x)) < Z.of_nat (nrows (values x)) - DCM._dt s)%Z.
Proof.
  intros HC Ha Hb Hx H0 Hn R. subst R. split; [|lia].
  unfold DCM.update, refcast. monad_unfold. rewrite HC. simpl.
  rewrite (proj2 (Z.ltb_ge _ _)) by lia. simpl.
  rewrite neg_lead_all, neg_lag_all, neg_last_none, neg_first_none by done.
  rewrite sum0_minus_empty. simpl.
  rewrite mult_tr by done. simpl. rewrite HC, Hx. rewrite mzip_tab. simpl.
  rewrite Ha. rewrite <- Hx at 1. rewrite sum0_tab, Hx, vzip_tab. simpl.
  rewrite Hb, vzip_tab. simpl. done.
Qed.

Lemma delay_negative_lag_witness :
  DCM.update (mkNdarray "d" (mkMatrix 1 [[q 3]])) (DCM.__init__ (-1) None)
  = (Ok tt, DCM.mk (-1) (Some "d") (Some (mkMatrix 1 [[q 9]])) (Some [q 3]) (Some [q 3])
                   2 (Some 1%nat)).
Proof.
  rewrite delay_update_None by done.
  destruct (delay_negative_lag (mkNdarray "d" (mkMatrix 1 [[q 3]]))
              (snd (DCM._init_internals (mkNdarray "d" (mkMatrix 1 [[q 3]]))
                                        (DCM.__init__ (-1) None)))
              1 (fun _ _ => 0) (fun _ => 0) (fun _ => 0)) as [E _]; try done.
  rewrite E. by_compute.
Defined.

(** * How the stream is cut *)




(** X12: with a transform [A] of [k] rows and [D] columns, on buffers of
    dimension [D] with a count of at least 2 below the guard's ceiling,
    [fix(A)] returns a [k x k] covariance. *)
Theorem delay_fix_transform_shape (s : DCM.t) (A : matrix) (D : nat) C a b :
  DCM._cov_mtx s = Some C -> DCM._avg s = Some a -> DCM._avg_dt s = Some b ->
  nrows C = D -> ncols C = D -> length a = D -> length b = D ->
  ncols A = D -> (2 <= DCM._tlen s)%Z ->
  ~ ceiling_reached (Qc_of_Z (DCM._tlen s)) (DCM._typecode s) ->
  exists cov mean_lead mean_lag n,
    fst (DCM.fix_ (Some A) s) = Ok (cov, mean_lead, mean_lag, n)
    /\ nrows cov = nrows A /\ ncols cov = nrows A.
Proof.
  intros HC Ha Hb H1 H2 H3 H4 HA Hn Hg.
  rewrite (delay_fix_ok (Some A) s C a b) by (done || lia || congruence).
  destruct (delay_cov_shape C a b (Qc_of_Z (DCM._tlen s))) as [S1 S2]; [congruence|].
  assert (E : nrows (tr A) = ncols A).
  { unfold nrows, tr; simpl. by rewrite length_map, length_seq. }
  destruct (mult_ok (delay_cov C a b (Qc_of_Z (DCM._tlen s))) (tr A))
    as (M & EM & HM1 & HM2); [congruence|].
  destruct (mult_ok A M) as (ACA & EA & HA1 & HA2); [congruence|].
  unfold transformed. rewrite EM. simpl. rewrite EA. simpl.
  eexists _, _, _, _. split; [done|]. split; [done|]. by rewrite HA2, HM2.
Qed.

Lemma delay_fix_transform_shape_witness :
  exists cov mean_lead mean_lag n,
    fst (DCM.fix_ (Some (mkMatrix 2 [[q 1; q 1]])) lagged_pairs)
    = Ok (cov, mean_lead, mean_lag, n)
    /\ nrows cov = 1%nat /\ ncols cov = 1%nat.
Proof.
  apply (delay_fix_transform_shape lagged_pairs (mkMatrix 2 [[q 1; q 1]]) 2
           (mkMatrix 2 [[q 18; q 22]; [q 26; q 32]]) [q 4; q 6] [q 8; q 10]); try done.
  apply small_count_passes. done.
Defined.

(** * The guard on a fractional count *)

Lemma int_ge_iff (L : Z) (t : Qc) : (0 < L)%Z -> (L <= int t)%Z <-> Qc_of_Z L <= t.
Proof.
  intros HL. destruct t as [[p d] Hc]. unfold int, Qcle, Qle, Qc_of_Z. simpl.
  rewrite Z.mul_1_r.
  destruct (Z.lt_ge_cases p 0) as [Hp|Hp].
  - assert (Hq : (p ÷ Z.pos d <= 0)%Z).
    { replace p with (- (- p))%Z by lia. rewrite Z.quot_opp_l by lia.
      pose proof (Z.quot_pos (- p) (Z.pos d)). lia. }
    split; intros H; [lia|nia].
  - split; intros H.
    + pose proof (Z.mul_quot_le p (Z.pos d) Hp ltac:(lia)). nia.
    + apply Z.quot_le_lower_bound; lia.
Qed.

(** X13: the truncation [int(t)] in the guard makes no difference, also for
    a count that is not a whole number: the guard raises exactly when [t]
    itself is at least [1e13] (typecode ['d']) or at least [1e5] (typecode
    ['f']). *)
Theorem check_roundoff_threshold {S} (s : S) (t : Qc) (type : option string) :
  (exists e, fst (_check_roundoff t type s) = Raise e)
  <-> (type = Some "d" /\ Qc_of_Z (10 ^ 13) <= t) \/ (type = Some "f" /\ Qc_of_Z (10 ^ 5) <= t).
Proof.
  assert (E : ceiling_reached t type
              <-> (type = Some "d" /\ Qc_of_Z (10 ^ 13) <= t)
                  \/ (type = Some "f" /\ Qc_of_Z (10 ^ 5) <= t)).
  { unfold ceiling_reached. rewrite !int_ge_iff by done. done. }
  rewrite <- E. split.
  - intros [e He]. destruct (decide (ceiling_reached t type)) as [Hc|Hc]; [done|].
    rewrite (check_roundoff_passes s t type Hc) in He. done.
  - intros Hc. destruct (check_roundoff_raises s t type Hc) as (ty & _ & Er).
    rewrite Er. eauto.
Qed.
